(** * send-keys: injecting bytes into a pseudoterminal's input queue

    A shallow embedding of the four command-line tools of [src/scripts]

      - [send-keys.c]           payload, then CR and LF
      - [send-keys-raw.c]       payload, then CR only (strict)
      - [send-keys-no-enter.c]  payload, then CR and LF when asked with [enter]
      - [send-keys-pty.c]       paced payload, CR, and LF in canonical mode

    Each [main] is a short sequence of system calls.  The kernel is an
    environment that answers every call; a run yields the exit status of the
    process together with the ordered list of calls it made. *)

From Stdlib Require Import ZArith List String Ascii Bool Lia.
Import ListNotations.

Local Open Scope Z_scope.

(** ** The environment of one run *)

(** Everything the process cannot decide by itself.  Return values are the
    C [int]s the calls hand back; the programs only ever test them with
    [< 0]. *)
Record env : Type := Env {
  (** [open(path, O_RDWR)] *)
  open_ret : string -> Z;
  (** [tcgetattr(fd, &tios)] *)
  tcgetattr_ret : Z;
  (** the [c_lflag] word [tcgetattr] stores when it succeeds *)
  term_lflag : Z;
  (** what the automatic [struct termios] holds before anything is stored
      in it: the declaration has no initialiser *)
  auto_lflag : Z;
  (** [ioctl(fd, TIOCSTI, &c)] for the n-th injection call of the run,
      counted from 0; a run makes its calls in one fixed order, so the
      sequence of answers is all the kernel contributes *)
  tiocsti_ret : nat -> Z
}.

(** [ICANON] of <termios.h> (Linux: octal 0000002). *)
Definition ICANON : Z := 2.

Definition CR : ascii := "013"%char.
Definition LF : ascii := "010"%char.

(** ** Observable events *)

Inductive fmt_arg : Type :=
| ArgStr (s : string)
| ArgStrerror.            (* strerror(errno) *)

Inductive event : Type :=
| Open (path : string) (ret : Z)
| Tcgetattr (fd : Z) (ret : Z)
| Tiocsti (fd : Z) (c : ascii) (ret : Z)
| Usleep (usec : Z)
| Close (fd : Z)
| Perror (label : string)                       (* label: decoded errno *)
| Fprintf_stderr (format : string) (arg : fmt_arg).

(** ** A monad for [main]: kernel answers, call counter, trace, early return *)

Inductive outcome (A : Type) : Type :=
| Next (a : A)
| Exit (status : Z).      (* [return status;] out of [main] *)
Arguments Next {A} a.
Arguments Exit {A} status.

Record result (A : Type) : Type := Result {
  res : outcome A;
  ncalls : nat;                 (* injection calls issued so far *)
  emitted : list event
}.
Arguments Result {A} res ncalls emitted.
Arguments res {A} r.
Arguments ncalls {A} r.
Arguments emitted {A} r.

Definition M (A : Type) : Type := env -> nat -> result A.

Definition ret {A} (a : A) : M A := fun _ n => Result (Next a) n [].

Definition bind {A B} (m : M A) (f : A -> M B) : M B :=
  fun E n =>
    let r := m E n in
    match res r with
    | Exit s => Result (Exit s) (ncalls r) (emitted r)
    | Next a =>
        let r' := f a E (ncalls r) in
        Result (res r') (ncalls r') (emitted r ++ emitted r')
    end.

Definition Return {A} (status : Z) : M A := fun _ n => Result (Exit status) n [].

Definition emit (e : event) : M unit := fun _ n => Result (Next tt) n [e].

Declare Scope prog_scope.
Delimit Scope prog_scope with prog.
Notation "x <- m ;; k" := (bind m (fun x => k))
  (at level 61, m at next level, right associativity) : prog_scope.
Notation "m ;; k" := (bind m (fun _ => k))
  (at level 61, right associativity) : prog_scope.
Local Open Scope prog_scope.

(** *** System and library calls *)

Definition open (path : string) : M Z :=
  fun E n => let fd := open_ret E path in Result (Next fd) n [Open path fd].

(** The local [struct termios] as declared, before any store. *)
Definition auto_termios : M Z :=
  fun E n => Result (Next (auto_lflag E)) n [].

(** [tcgetattr(fd, &tios)]: returns the status and the content of [tios]
    afterwards; the structure is written only on success. *)
Definition tcgetattr (fd : Z) (tios : Z) : M (Z * Z) :=
  fun E n =>
    let r := tcgetattr_ret E in
    Result (Next (r, if r <? 0 then tios else term_lflag E)) n [Tcgetattr fd r].

Definition ioctl_TIOCSTI (fd : Z) (c : ascii) : M Z :=
  fun E n =>
    let r := tiocsti_ret E n in Result (Next r) (S n) [Tiocsti fd c r].

Definition usleep (usec : Z) : M unit := emit (Usleep usec).
Definition close (fd : Z) : M unit := emit (Close fd).
Definition perror (label : string) : M unit := emit (Perror label).
Definition fprintf_stderr (format : string) (arg : fmt_arg) : M unit :=
  emit (Fprintf_stderr format arg).

Definition skip : M unit := ret tt.

(** *** Arguments *)

(** [argv[i]]; C strings are their bytes up to the terminator. *)
Definition arg (argv : list string) (i : nat) : string :=
  nth i argv "(null)"%string.
Definition argc (argv : list string) : Z := Z.of_nat (List.length argv).

Definition dquote : string := String "034"%char EmptyString.
Definition newline : string := String "010"%char EmptyString.

Definition usage_fmt : string :=
  ("Usage: %s /dev/pts/X " ++ dquote ++ "text to send" ++ dquote ++ newline)%string.
Definition usage_fmt_eol : string :=
  ("Usage: %s /dev/pts/X " ++ dquote ++ "text to send" ++ dquote
   ++ " [enter|none]" ++ newline)%string.

(** ** The payload loop

    [for (int i = 0; i < strlen(text); i++)] with the body of
    send-keys.c:22-26, send-keys-raw.c:27-31 and send-keys-no-enter.c:22-26
    (the three are the same text).  The recursion is on the bytes still to
    send, [text + i]; [text] is never written, so [strlen] is the same at
    every test, and an argument string is far shorter than [INT_MAX]. *)
Fixpoint send_text (fd : Z) (text : list ascii) : M unit :=
  match text with
  | [] => ret tt
  | c :: rest =>
      r <- ioctl_TIOCSTI fd c ;;
      if r <? 0 then
        perror "Failed to send character" ;;
        close fd ;;
        Return 1
      else send_text fd rest
  end.

(** ** send-keys.c *)
Module SendKeys.

Definition main (argv : list string) : M Z :=
  if negb (argc argv =? 3) then
    fprintf_stderr usage_fmt (ArgStr (arg argv 0)) ;;
    Return 1
  else
    fd <- open (arg argv 1) ;;
    if fd <? 0 then
      perror "Failed to open terminal" ;;
      Return 1
    else
      send_text fd (list_ascii_of_string (arg argv 2)) ;;
      r <- ioctl_TIOCSTI fd CR ;;
      (if r <? 0 then perror "Failed to send CR" else skip) ;;
      r <- ioctl_TIOCSTI fd LF ;;
      (if r <? 0 then perror "Failed to send LF" else skip) ;;
      close fd ;;
      Return 0.

End SendKeys.

(** ** send-keys-raw.c *)
Module SendKeysRaw.

Definition main (argv : list string) : M Z :=
  if negb (argc argv =? 3) then
    fprintf_stderr usage_fmt (ArgStr (arg argv 0)) ;;
    Return 1
  else
    fd <- open (arg argv 1) ;;
    if fd <? 0 then
      perror "Failed to open terminal" ;;
      Return 1
    else
      old_tio <- auto_termios ;;
      _ <- tcgetattr fd old_tio ;;
      send_text fd (list_ascii_of_string (arg argv 2)) ;;
      r <- ioctl_TIOCSTI fd CR ;;
      if r <? 0 then
        perror "Failed to send Enter key" ;;
        close fd ;;
        Return 1
      else
        close fd ;;
        Return 0.

End SendKeysRaw.

(** ** send-keys-no-enter.c *)
Module SendKeysNoEnter.

Definition main (argv : list string) : M Z :=
  if (argc argv <? 3) || (argc argv >? 4) then
    fprintf_stderr usage_fmt_eol (ArgStr (arg argv 0)) ;;
    Return 1
  else
    fd <- open (arg argv 1) ;;
    if fd <? 0 then
      perror "Failed to open terminal" ;;
      Return 1
    else
      send_text fd (list_ascii_of_string (arg argv 2)) ;;
      (if (argc argv =? 4) && (arg argv 3 =? "enter")%string then
         r <- ioctl_TIOCSTI fd CR ;;
         (if r <? 0 then perror "Failed to send CR" else skip) ;;
         r <- ioctl_TIOCSTI fd LF ;;
         (if r <? 0 then perror "Failed to send LF" else skip)
       else skip) ;;
      close fd ;;
      Return 0.

End SendKeysNoEnter.

(** ** send-keys-pty.c *)
Module SendKeysPty.

(** The loop of send-keys-pty.c:31-38: as [send_text], with the 1 ms sleep
    closing each iteration that did not return. *)
Fixpoint send_text (fd : Z) (text : list ascii) : M unit :=
  match text with
  | [] => ret tt
  | c :: rest =>
      r <- ioctl_TIOCSTI fd c ;;
      if r <? 0 then
        perror "Failed to send character" ;;
        close fd ;;
        Return 1
      else
        usleep 1000 ;;
        send_text fd rest
  end.

Definition main (argv : list string) : M Z :=
  if negb (argc argv =? 3) then
    fprintf_stderr usage_fmt (ArgStr (arg argv 0)) ;;
    Return 1
  else
    fd <- open (arg argv 1) ;;
    if fd <? 0 then
      perror "Failed to open terminal" ;;
      Return 1
    else
      tios <- auto_termios ;;
      q <- tcgetattr fd tios ;;
      let tios := snd q in
      (if fst q <? 0 then perror "tcgetattr failed" else skip) ;;
      send_text fd (list_ascii_of_string (arg argv 2)) ;;
      r <- ioctl_TIOCSTI fd CR ;;
      (if r <? 0 then
         fprintf_stderr ("Failed to send CR: %s" ++ newline)%string ArgStrerror
       else skip) ;;
      usleep 10000 ;;
      (if negb (Z.land tios ICANON =? 0) then
         r <- ioctl_TIOCSTI fd LF ;;
         (if r <? 0 then
            fprintf_stderr ("Failed to send LF: %s" ++ newline)%string ArgStrerror
          else skip)
       else skip) ;;
      close fd ;;
      Return 0.

End SendKeysPty.

(** ** Running a tool *)

Inductive variant : Type := Plain | Raw | NoEnter | Pty.

Definition program (v : variant) : list string -> M Z :=
  match v with
  | Plain => SendKeys.main
  | Raw => SendKeysRaw.main
  | NoEnter => SendKeysNoEnter.main
  | Pty => SendKeysPty.main
  end.

Definition status_of (o : outcome Z) : Z :=
  match o with Next s => s | Exit s => s end.

(** Exit status and trace of one invocation. *)
Definition run (v : variant) (argv : list string) (E : env) : Z * list event :=
  let r := program v argv E 0%nat in (status_of (res r), emitted r).

Definition exit_status (v : variant) (argv : list string) (E : env) : Z :=
  fst (run v argv E).
Definition trace (v : variant) (argv : list string) (E : env) : list event :=
  snd (run v argv E).

(** The device path and the payload of a command line. *)
Definition device (argv : list string) : string := arg argv 1.
Definition payload (argv : list string) : list ascii :=
  list_ascii_of_string (arg argv 2).

(** The command-line shapes that get past the usage check. *)
Definition well_formed (v : variant) (argv : list string) : Prop :=
  match v with
  | NoEnter => List.length argv = 3%nat \/ List.length argv = 4%nat
  | _ => List.length argv = 3%nat
  end.

(** ** Reading a trace *)

(** The injection calls of a trace, in order: the byte handed to the
    facility and the kernel's answer.  One entry per call. *)
Fixpoint injections (tr : list event) : list (ascii * Z) :=
  match tr with
  | [] => []
  | Tiocsti _ c r :: tr' => (c, r) :: injections tr'
  | _ :: tr' => injections tr'
  end.

(** Bytes handed to the injection facility. *)
Definition injected (tr : list event) : list ascii := map fst (injections tr).

(** Bytes the kernel took. *)
Definition accepted (tr : list event) : list ascii :=
  map fst (filter (fun p => 0 <=? snd p) (injections tr)).

(** [delivered text calls]: the first calls carry the bytes of [text], one
    each and in order, and the kernel took every one of them. *)
Fixpoint delivered (text : list ascii) (calls : list (ascii * Z)) : bool :=
  match text, calls with
  | [], _ => true
  | c :: text', (c', r) :: calls' =>
      Ascii.eqb c c' && (0 <=? r) && delivered text' calls'
  | _ :: _, [] => false
  end.

Definition is_diagnostic (e : event) : bool :=
  match e with
  | Perror _ | Fprintf_stderr _ _ => true
  | _ => false
  end.

(** What went to the diagnostic stream. *)
Definition diagnostics (tr : list event) : list event := filter is_diagnostic tr.

Definition is_close (e : event) : bool :=
  match e with Close _ => true | _ => false end.

Definition is_usage (e : event) : bool :=
  match e with
  | Fprintf_stderr f _ => String.eqb f usage_fmt || String.eqb f usage_fmt_eol
  | _ => false
  end.

(** ** Closed forms of a run

    Proof devices, not part of the model: [run_ill_formed],
    [run_open_failed], [run_refused] and [run_taken] below show that the
    four [main]s compute exactly the traces assembled here. *)

(** The events of a stretch of payload the kernel takes: one injection per
    byte, each followed by [pace] (nothing, or the 1 ms sleep). *)
Fixpoint taken (pace : list event) (fd : Z) (E : env) (n : nat)
         (text : list ascii) : list event :=
  match text with
  | [] => []
  | c :: rest =>
      Tiocsti fd c (tiocsti_ret E n) :: pace ++ taken pace fd E (S n) rest
  end.

(** The kernel takes the calls [n .. n + len - 1]. *)
Definition takes (E : env) (n len : nat) : Prop :=
  forall i, (i < len)%nat -> 0 <= tiocsti_ret E (n + i).

(** The kernel takes [i] calls from [n] on and refuses the next. *)
Definition refuses_at (E : env) (n i : nat) : Prop :=
  takes E n i /\ tiocsti_ret E (n + i) < 0.

(** What each tool does between opening the device and the first byte. *)
Definition prologue (v : variant) (fd : Z) (E : env) : list event :=
  match v with
  | Plain | NoEnter => []
  | Raw => [Tcgetattr fd (tcgetattr_ret E)]
  | Pty =>
      Tcgetattr fd (tcgetattr_ret E)
      :: (if tcgetattr_ret E <? 0 then [Perror "tcgetattr failed"] else [])
  end.

Definition pace (v : variant) : list event :=
  match v with Pty => [Usleep 1000] | _ => [] end.

(** The [c_lflag] word the pty tool tests after the payload. *)
Definition tested_lflag (E : env) : Z :=
  if tcgetattr_ret E <? 0 then auto_lflag E else term_lflag E.

Definition soft (r : Z) (d : event) : list event :=
  if r <? 0 then [d] else [].

(** Status and events after the last payload byte; [n] is the payload's
    length, that is, the number of injection calls already made. *)
Definition epilogue (v : variant) (argv : list string) (fd : Z) (E : env)
           (n : nat) : Z * list event :=
  let t := tiocsti_ret E in
  match v with
  | Plain =>
      (0, Tiocsti fd CR (t n) :: soft (t n) (Perror "Failed to send CR")
          ++ Tiocsti fd LF (t (S n)) :: soft (t (S n)) (Perror "Failed to send LF")
          ++ [Close fd])
  | Raw =>
      if t n <? 0
      then (1, [Tiocsti fd CR (t n); Perror "Failed to send Enter key"; Close fd])
      else (0, [Tiocsti fd CR (t n); Close fd])
  | NoEnter =>
      (0, (if (argc argv =? 4) && (arg argv 3 =? "enter")%string
           then Tiocsti fd CR (t n) :: soft (t n) (Perror "Failed to send CR")
                ++ Tiocsti fd LF (t (S n))
                   :: soft (t (S n)) (Perror "Failed to send LF")
           else [])
          ++ [Close fd])
  | Pty =>
      (0, Tiocsti fd CR (t n)
          :: soft (t n) (Fprintf_stderr ("Failed to send CR: %s" ++ newline)%string
                                        ArgStrerror)
          ++ Usleep 10000
          :: (if negb (Z.land (tested_lflag E) ICANON =? 0)
              then Tiocsti fd LF (t (S n))
                   :: soft (t (S n))
                        (Fprintf_stderr ("Failed to send LF: %s" ++ newline)%string
                                        ArgStrerror)
              else [])
          ++ [Close fd])
  end.

Definition usage_of (v : variant) : string :=
  match v with NoEnter => usage_fmt_eol | _ => usage_fmt end.

(** The calls of a stretch of payload starting at call [n], with the
    kernel's answers. *)
Fixpoint replies (E : env) (n : nat) (text : list ascii) : list (ascii * Z) :=
  match text with
  | [] => []
  | c :: rest => (c, tiocsti_ret E n) :: replies E (S n) rest
  end.

(** The four ways a run can go. *)
Inductive run_case (v : variant) (argv : list string) (E : env) : Prop :=
| Misuse : ~ well_formed v argv -> run_case v argv E
| NoDevice :
    well_formed v argv -> open_ret E (device argv) < 0 -> run_case v argv E
| Refused (i : nat) :
    well_formed v argv -> 0 <= open_ret E (device argv) ->
    (i < List.length (payload argv))%nat -> refuses_at E 0 i ->
    run_case v argv E
| Taken :
    well_formed v argv -> 0 <= open_ret E (device argv) ->
    takes E 0 (List.length (payload argv)) -> run_case v argv E.

(** ** Statements

    Sample kernels.  [willing]: the device opens as descriptor 3, the
    terminal is in canonical mode, every byte is taken.  [refusing k]: the
    same, but injection call [k] fails.  [raw_mode]: as [willing], with a
    terminal out of canonical mode. *)
Definition willing : env := Env (fun _ => 3) 0 ICANON 0 (fun _ => 0).

Definition refusing (k : nat) : env :=
  Env (fun _ => 3) 0 ICANON 0 (fun n => if Nat.eqb n k then -1 else 0).

Definition raw_mode : env := Env (fun _ => 3) 0 2608 0 (fun _ => 0).

(** Sample command lines. *)
Definition cmd_plain : list string := ["send-keys"; "/dev/pts/1"; "hi"]%string.
Definition cmd_raw : list string := ["send-keys-raw"; "/dev/pts/1"; "hi"]%string.
Definition cmd_pty : list string := ["send-keys-pty"; "/dev/pts/1"; "hi"]%string.
Definition cmd_pty_a : list string := ["send-keys-pty"; "/dev/pts/1"; "a"]%string.
Definition cmd_no_token : list string :=
  ["send-keys-no-enter"; "/dev/pts/1"; "abc"]%string.
Definition cmd_bogus_token : list string :=
  ["send-keys-no-enter"; "/dev/pts/1"; "hi"; "bogus"]%string.

(** Every payload byte was accepted by the injection facility: the run got
    as far as the facility -- the command line parsed and the device opened
    -- and the kernel took each byte of the payload, in order. *)
Definition payload_accepted (v : variant) (argv : list string) (E : env)
  : Prop :=
  well_formed v argv /\ 0 <= open_ret E (device argv) /\
  delivered (payload argv) (injections (trace v argv E)) = true.

(** Exit status 0 exactly when every payload byte was accepted. *)
Definition exit_iff_payload_accepted (v : variant) (argv : list string)
           (E : env) : Prop :=
  exit_status v argv E = 0 <-> payload_accepted v argv E.

(** The framing bytes whose refusal is fatal. *)
Definition fatal_framing (v : variant) : list ascii :=
  match v with Raw => [CR] | _ => [] end.

(** A fourth argument outside [{enter, none}] is answered with the usage
    line and a nonzero status. *)
Definition rejects_unknown_token (argv : list string) (E : env) : Prop :=
  List.length argv = 4%nat ->
  arg argv 3 <> "enter"%string -> arg argv 3 <> "none"%string ->
  filter is_usage (trace NoEnter argv E) <> []
  /\ exit_status NoEnter argv E <> 0.

(** The device opens and takes every byte, the attribute query fails, and
    the never-written [tios.c_lflag] holds a word with the [ICANON] bit. *)
Definition query_fails_stale_canon : env :=
  Env (fun _ => 3) (-1) 0 35387 (fun _ => 0).

(** The snapshot says canonical mode: bit 1 of [c_lflag], the [ICANON]
    bit, is set. *)
Definition canonical (lflag : Z) : bool := Z.testbit lflag 1.

(** Framing applies: always, but in the tool with the optional token only
    when the token is [enter]. *)
Definition framing_applies (v : variant) (argv : list string) : Prop :=
  match v with
  | NoEnter => List.length argv = 4%nat /\ arg argv 3 = "enter"%string
  | _ => True
  end.

(** Canonical framing is requested unconditionally (always-enter tool,
    [enter] token), or the snapshot has canonical mode set. *)
Definition canonical_framing (v : variant) (E : env) : bool :=
  match v with
  | Plain | NoEnter => true
  | Raw => false
  | Pty => canonical (term_lflag E)
  end.

(** Whether the tool sends the LF after the CR.  send-keys-pty decides it
    by the [ICANON] bit of the word [tios.c_lflag] holds at the test of
    line 52: the snapshot where the query stored one, and otherwise what
    the automatic structure happened to hold. *)
Definition lf_sent (v : variant) (E : env) : bool :=
  match v with
  | Plain | NoEnter => true
  | Raw => false
  | Pty => canonical (tested_lflag E)
  end.

(** The 1 ms sleep lies strictly between two payload bytes: at least one
    injection was made before it, and fewer than the whole payload. *)
Definition delay_only_between_payload_bytes (argv : list string) (E : env)
  : Prop :=
  forall pre post,
    trace Pty argv E = pre ++ Usleep 1000 :: post ->
    (0 < List.length (injections pre) < List.length (payload argv))%nat.

(** [paced len seen due tr]: reading [tr] after [seen] injection calls, the
    1 ms sleep is the next event exactly when [due], and [due] holds right
    after a payload byte (call number below [len]) the kernel took. *)
Fixpoint paced (len seen : nat) (due : bool) (tr : list event) : bool :=
  match tr with
  | [] => negb due
  | e :: tr' =>
      match e with
      | Tiocsti _ _ r =>
          negb due && paced len (S seen) ((seen <? len)%nat && (0 <=? r)) tr'
      | Usleep us =>
          if us =? 1000 then due && paced len seen false tr'
          else negb due && paced len seen false tr'
      | _ => negb due && paced len seen false tr'
      end
  end.

Definition is_open (e : event) : bool :=
  match e with Open _ _ => true | _ => false end.

Definition is_query (e : event) : bool :=
  match e with Tcgetattr _ _ => true | _ => false end.

(** A trace with the attribute query -- the one event that carries the
    query's result -- left out. *)
Definition without_query (tr : list event) : list event :=
  filter (fun e => negb (is_query e)) tr.

(** ** Further observables *)

(** Microseconds spent in [usleep]. *)
Fixpoint slept (tr : list event) : Z :=
  match tr with
  | [] => 0
  | Usleep us :: tr' => us + slept tr'
  | _ :: tr' => slept tr'
  end.

(** The descriptor a call works on, for the calls that take one. *)
Definition descriptor (e : event) : option Z :=
  match e with
  | Tcgetattr fd _ | Tiocsti fd _ _ | Close fd => Some fd
  | _ => None
  end.

Definition is_sleep (e : event) : bool :=
  match e with Usleep _ => true | _ => false end.

(** The framing bytes a tool may send, in the order it sends them. *)
Definition full_framing (v : variant) : list ascii :=
  match v with Raw => [CR] | _ => [CR; LF] end.

(** More sample inputs: a kernel on which no device opens, and a command
    line that lacks the payload. *)
Definition no_device : env := Env (fun _ => -1) 0 0 0 (fun _ => 0).
Definition cmd_short : list string :=
  ["send-keys-no-enter"; "/dev/pts/1"]%string.

(** The diagnostic of a refused framing byte in the tools that use
    [perror] for it. *)
Definition refusal_note (r : Z) (label : string) : list event :=
  if r <? 0 then [Perror label] else [].

(** ** Laws of the monad *)

Lemma bind_next {A B} (m : M A) (f : A -> M B) E n a n' tr :
  m E n = Result (Next a) n' tr ->
  bind m f E n =
  Result (res (f a E n')) (ncalls (f a E n')) (tr ++ emitted (f a E n')).
Proof. intros H. unfold bind. rewrite H. reflexivity. Qed.

Lemma bind_exit {A B} (m : M A) (f : A -> M B) E n s n' tr :
  m E n = Result (Exit s) n' tr ->
  bind m f E n = Result (Exit s) n' tr.
Proof. intros H. unfold bind. rewrite H. reflexivity. Qed.

Lemma injections_app tr1 tr2 :
  injections (tr1 ++ tr2) = injections tr1 ++ injections tr2.
Proof.
  induction tr1 as [|e tr1 IH]; [reflexivity|].
  destruct e; simpl; rewrite IH; reflexivity.
Qed.

Lemma injected_app tr1 tr2 : injected (tr1 ++ tr2) = injected tr1 ++ injected tr2.
Proof. unfold injected. rewrite injections_app, map_app. reflexivity. Qed.

Lemma accepted_app tr1 tr2 : accepted (tr1 ++ tr2) = accepted tr1 ++ accepted tr2.
Proof.
  unfold accepted. rewrite injections_app, filter_app, map_app. reflexivity.
Qed.

(** ** The payload phase in closed form *)

Lemma takes_S E n len :
  takes E n (S len) <-> 0 <= tiocsti_ret E n /\ takes E (S n) len.
Proof.
  unfold takes. split.
  - intros H. split.
    + specialize (H 0%nat). rewrite Nat.add_0_r in H. apply H. lia.
    + intros i Hi. replace (S n + i)%nat with (n + S i)%nat by lia.
      apply H. lia.
  - intros [H0 H] [|i] Hi.
    + rewrite Nat.add_0_r. exact H0.
    + replace (n + S i)%nat with (S n + i)%nat by lia. apply H. lia.
Qed.

(** Either every byte is taken or there is a first refusal. *)
Lemma takes_or_refuses E len : forall n,
  takes E n len \/ exists i, (i < len)%nat /\ refuses_at E n i.
Proof.
  induction len as [|len IH]; intros n.
  - left. intros i Hi. lia.
  - destruct (Z.ltb_spec (tiocsti_ret E n) 0) as [Hneg|Hpos].
    + right. exists 0%nat. split; [lia|]. split.
      * intros i Hi. lia.
      * rewrite Nat.add_0_r. exact Hneg.
    + destruct (IH (S n)) as [Hall|[i [Hi [Hpre Hrej]]]].
      * left. apply takes_S. split; assumption.
      * right. exists (S i). split; [lia|]. split.
        -- apply takes_S. split; assumption.
        -- replace (n + S i)%nat with (S n + i)%nat by lia. exact Hrej.
Qed.

Lemma send_text_taken fd E : forall text n,
  takes E n (List.length text) ->
  send_text fd text E n =
  Result (Next tt) (n + List.length text) (taken [] fd E n text).
Proof.
  induction text as [|c rest IH]; intros n H.
  - simpl. unfold ret. rewrite Nat.add_0_r. reflexivity.
  - simpl List.length in *. apply takes_S in H. destruct H as [H0 H].
    cbn [send_text]. unfold bind at 1. cbn.
    destruct (Z.ltb_spec (tiocsti_ret E n) 0) as [Hneg|_]; [lia|].
    rewrite (IH (S n) H). cbn.
    replace (n + S (List.length rest))%nat with (S (n + List.length rest)) by lia.
    reflexivity.
Qed.

Lemma send_text_refused fd E : forall text n i,
  (i < List.length text)%nat ->
  refuses_at E n i ->
  send_text fd text E n =
  Result (Exit 1) (n + S i)
    (taken [] fd E n (firstn i text)
     ++ [Tiocsti fd (nth i text CR) (tiocsti_ret E (n + i));
         Perror "Failed to send character"; Close fd]).
Proof.
  induction text as [|c rest IH]; intros n i Hi [Hpre Hrej].
  - simpl in Hi. lia.
  - cbn [send_text]. unfold bind at 1. cbn.
    destruct i as [|i].
    + rewrite Nat.add_0_r in *.
      destruct (Z.ltb_spec (tiocsti_ret E n) 0) as [_|Hpos]; [|lia].
      cbn. rewrite Nat.add_1_r. reflexivity.
    + apply takes_S in Hpre. destruct Hpre as [H0 Hpre].
      destruct (Z.ltb_spec (tiocsti_ret E n) 0) as [Hneg|_]; [lia|].
      simpl in Hi.
      rewrite (IH (S n) i); [|lia|].
      * cbn. rewrite <- !plus_n_Sm. reflexivity.
      * split; [exact Hpre|].
        replace (S n + i)%nat with (n + S i)%nat by lia. exact Hrej.
Qed.

Lemma paced_send_text_taken fd E : forall text n,
  takes E n (List.length text) ->
  SendKeysPty.send_text fd text E n =
  Result (Next tt) (n + List.length text) (taken [Usleep 1000] fd E n text).
Proof.
  induction text as [|c rest IH]; intros n H.
  - simpl. unfold ret. rewrite Nat.add_0_r. reflexivity.
  - simpl List.length in *. apply takes_S in H. destruct H as [H0 H].
    cbn [SendKeysPty.send_text]. unfold bind at 1. cbn.
    destruct (Z.ltb_spec (tiocsti_ret E n) 0) as [Hneg|_]; [lia|].
    unfold bind at 1. cbn. rewrite (IH (S n) H). cbn.
    rewrite <- plus_n_Sm. reflexivity.
Qed.

Lemma paced_send_text_refused fd E : forall text n i,
  (i < List.length text)%nat ->
  refuses_at E n i ->
  SendKeysPty.send_text fd text E n =
  Result (Exit 1) (n + S i)
    (taken [Usleep 1000] fd E n (firstn i text)
     ++ [Tiocsti fd (nth i text CR) (tiocsti_ret E (n + i));
         Perror "Failed to send character"; Close fd]).
Proof.
  induction text as [|c rest IH]; intros n i Hi [Hpre Hrej].
  - simpl in Hi. lia.
  - cbn [SendKeysPty.send_text]. unfold bind at 1. cbn.
    destruct i as [|i].
    + rewrite Nat.add_0_r in *.
      destruct (Z.ltb_spec (tiocsti_ret E n) 0) as [_|Hpos]; [|lia].
      cbn. rewrite Nat.add_1_r. reflexivity.
    + apply takes_S in Hpre. destruct Hpre as [H0 Hpre].
      destruct (Z.ltb_spec (tiocsti_ret E n) 0) as [Hneg|_]; [lia|].
      simpl in Hi. unfold bind at 1. cbn.
      rewrite (IH (S n) i); [|lia|].
      * cbn. rewrite <- !plus_n_Sm. reflexivity.
      * split; [exact Hpre|].
        replace (S n + i)%nat with (n + S i)%nat by lia. exact Hrej.
Qed.

(** ** Whole runs in closed form *)

Lemma well_formed_guard v argv :
  well_formed v argv ->
  match v with
  | NoEnter => (argc argv <? 3) || (argc argv >? 4) = false
  | _ => negb (argc argv =? 3) = false
  end.
Proof.
  unfold well_formed, argc. destruct v; intros H.
  1,2,4: rewrite H; reflexivity.
  destruct H as [H|H]; rewrite H; reflexivity.
Qed.

Lemma ill_formed_guard v argv :
  ~ well_formed v argv ->
  match v with
  | NoEnter => (argc argv <? 3) || (argc argv >? 4) = true
  | _ => negb (argc argv =? 3) = true
  end.
Proof.
  unfold well_formed, argc. destruct v; intros H.
  1,2,4: apply negb_true_iff, Z.eqb_neq; lia.
  apply orb_true_iff. rewrite Z.ltb_lt, Z.gtb_gt. lia.
Qed.

(** A command line of the wrong shape: the usage line and status 1. *)
Lemma run_ill_formed v argv E :
  ~ well_formed v argv ->
  run v argv E = (1, [Fprintf_stderr (usage_of v) (ArgStr (arg argv 0))]).
Proof.
  intros H. apply ill_formed_guard in H.
  unfold run, program.
  destruct v; unfold SendKeys.main, SendKeysRaw.main, SendKeysNoEnter.main,
    SendKeysPty.main; rewrite H; reflexivity.
Qed.

(** The device does not open: one diagnostic and status 1. *)
Lemma run_open_failed v argv E :
  well_formed v argv ->
  open_ret E (device argv) < 0 ->
  run v argv E =
  (1, [Open (device argv) (open_ret E (device argv));
       Perror "Failed to open terminal"]).
Proof.
  intros H Hfd. apply well_formed_guard in H. apply Z.ltb_lt in Hfd.
  unfold run, program, device in *.
  destruct v; unfold SendKeys.main, SendKeysRaw.main, SendKeysNoEnter.main,
    SendKeysPty.main; rewrite H; unfold bind at 1; cbn; rewrite Hfd;
    reflexivity.
Qed.

(** The check of the attribute query in send-keys-pty.c:24-26. *)
Lemma bind_query_check {B} (k : unit -> M B) E n (x : Z) :
  bind (if fst (tcgetattr_ret E, x) <? 0
        then perror "tcgetattr failed" else skip) k E n =
  Result (res (k tt E n)) (ncalls (k tt E n))
    ((if tcgetattr_ret E <? 0 then [Perror "tcgetattr failed"] else [])
     ++ emitted (k tt E n)).
Proof. cbn [fst]. destruct (tcgetattr_ret E <? 0); reflexivity. Qed.

(** Split on every test the straight-line rest of a [main] makes. *)
Ltac branches :=
  unfold epilogue, soft, tested_lflag;
  repeat (cbn; unfold bind; cbn;
          match goal with
          | |- context [if ?b then _ else _] => destruct b
          end);
  cbn; unfold bind; cbn; try reflexivity.

Ltac enter_main H Hfd :=
  unfold run, program, payload, device in *;
  unfold SendKeys.main, SendKeysRaw.main, SendKeysNoEnter.main,
    SendKeysPty.main;
  rewrite H;
  erewrite bind_next by reflexivity;
  cbv beta; rewrite Hfd.

(** The kernel refuses payload byte [i] after taking the ones before it. *)
Lemma run_refused v argv E i :
  well_formed v argv ->
  0 <= open_ret E (device argv) ->
  (i < List.length (payload argv))%nat ->
  refuses_at E 0 i ->
  let fd := open_ret E (device argv) in
  run v argv E =
  (1, Open (device argv) fd :: prologue v fd E
      ++ taken (pace v) fd E 0 (firstn i (payload argv))
      ++ [Tiocsti fd (nth i (payload argv) CR) (tiocsti_ret E i);
          Perror "Failed to send character"; Close fd]).
Proof.
  intros H Hfd Hi Hrej fd. subst fd.
  apply well_formed_guard in H. apply Z.ltb_ge in Hfd.
  destruct v; enter_main H Hfd.
  - erewrite bind_exit by (apply send_text_refused; eassumption).
    reflexivity.
  - erewrite bind_next by reflexivity. cbv beta.
    erewrite bind_next by reflexivity. cbv beta.
    erewrite bind_exit by (apply send_text_refused; eassumption).
    reflexivity.
  - erewrite bind_exit by (apply send_text_refused; eassumption).
    reflexivity.
  - erewrite bind_next by reflexivity. cbv beta.
    erewrite bind_next by reflexivity. cbv beta.
    cbn [ncalls emitted res]. rewrite bind_query_check.
    erewrite bind_exit by (apply paced_send_text_refused; eassumption).
    cbn. reflexivity.
Qed.

(** The kernel takes the whole payload. *)
Lemma run_taken v argv E :
  well_formed v argv ->
  0 <= open_ret E (device argv) ->
  takes E 0 (List.length (payload argv)) ->
  let fd := open_ret E (device argv) in
  let epi := epilogue v argv fd E (List.length (payload argv)) in
  run v argv E =
  (fst epi, Open (device argv) fd :: prologue v fd E
            ++ taken (pace v) fd E 0 (payload argv) ++ snd epi).
Proof.
  intros H Hfd Hall fd epi. subst fd epi.
  apply well_formed_guard in H. apply Z.ltb_ge in Hfd.
  destruct v; enter_main H Hfd.
  - erewrite bind_next by (apply send_text_taken; eassumption).
    branches.
  - erewrite bind_next by reflexivity. cbv beta.
    erewrite bind_next by reflexivity. cbv beta.
    erewrite bind_next by (apply send_text_taken; eassumption).
    branches.
  - erewrite bind_next by (apply send_text_taken; eassumption).
    branches.
  - erewrite bind_next by reflexivity. cbv beta.
    erewrite bind_next by reflexivity. cbv beta.
    cbn [ncalls emitted res]. rewrite bind_query_check.
    erewrite bind_next by (apply paced_send_text_taken; eassumption).
    branches.
Qed.

(** ** The injection calls of a run *)

Lemma injections_taken v fd E : forall text n,
  injections (taken (pace v) fd E n text) = replies E n text.
Proof.
  induction text as [|c rest IH]; intros n; [reflexivity|].
  cbn [taken replies injections]. rewrite injections_app, IH.
  destruct v; reflexivity.
Qed.

Lemma injections_prologue v fd E : injections (prologue v fd E) = [].
Proof. destruct v; cbn; try reflexivity. destruct (_ <? 0); reflexivity. Qed.

Lemma map_fst_replies E : forall text n, map fst (replies E n text) = text.
Proof.
  induction text as [|c rest IH]; intros n; [reflexivity|].
  cbn. rewrite IH. reflexivity.
Qed.

Lemma length_replies E : forall text n,
  List.length (replies E n text) = List.length text.
Proof.
  induction text as [|c rest IH]; intros n; [reflexivity|].
  cbn. rewrite IH. reflexivity.
Qed.

Lemma filter_replies_taken E : forall text n,
  takes E n (List.length text) ->
  filter (fun p => 0 <=? snd p) (replies E n text) = replies E n text.
Proof.
  induction text as [|c rest IH]; intros n H; [reflexivity|].
  simpl List.length in H. apply takes_S in H. destruct H as [H0 H].
  cbn. apply Z.leb_le in H0. rewrite H0, (IH _ H). reflexivity.
Qed.

Lemma takes_firstn E n i (text : list ascii) :
  (i <= List.length text)%nat -> takes E n i ->
  takes E n (List.length (firstn i text)).
Proof. intros Hi H. rewrite length_firstn, Nat.min_l by exact Hi. exact H. Qed.

Lemma delivered_taken E : forall text n more rest,
  takes E n (List.length text) ->
  delivered (text ++ more) (replies E n text ++ rest) = delivered more rest.
Proof.
  induction text as [|c text IH]; intros n more rest H; [reflexivity|].
  simpl List.length in H. apply takes_S in H. destruct H as [H0 H].
  cbn. rewrite Ascii.eqb_refl. apply Z.leb_le in H0. rewrite H0.
  cbn. apply IH, H.
Qed.

Lemma delivered_refused E : forall text n i more rest,
  (i < List.length text)%nat ->
  refuses_at E n i ->
  delivered (text ++ more)
    (replies E n (firstn i text) ++ (nth i text CR, tiocsti_ret E (n + i)) :: rest)
  = false.
Proof.
  induction text as [|c text IH]; intros n i more rest Hi [Hpre Hrej].
  - simpl in Hi. lia.
  - destruct i as [|i].
    + rewrite Nat.add_0_r in *. cbn.
      apply Z.leb_gt in Hrej. rewrite Hrej, andb_false_r. reflexivity.
    + apply takes_S in Hpre. destruct Hpre as [H0 Hpre]. simpl in Hi.
      cbn. rewrite Ascii.eqb_refl. apply Z.leb_le in H0. rewrite H0. cbn.
      rewrite <- plus_n_Sm. apply IH; [lia|].
      split; [exact Hpre|]. cbn. rewrite plus_n_Sm. exact Hrej.
Qed.

Lemma well_formed_dec v argv : {well_formed v argv} + {~ well_formed v argv}.
Proof.
  unfold well_formed. destruct v.
  1,2,4: apply Nat.eq_dec.
  destruct (Nat.eq_dec (List.length argv) 3); [left; left; assumption|].
  destruct (Nat.eq_dec (List.length argv) 4); [left; right; assumption|].
  right. intros [H|H]; contradiction.
Qed.

Lemma run_cases v argv E : run_case v argv E.
Proof.
  destruct (well_formed_dec v argv) as [Hwf|Hwf]; [|apply Misuse; exact Hwf].
  destruct (Z.ltb_spec (open_ret E (device argv)) 0) as [Hfd|Hfd];
    [apply NoDevice; assumption|].
  destruct (takes_or_refuses E (List.length (payload argv)) 0)
    as [Hall|[i [Hi Hrej]]].
  - apply Taken; assumption.
  - apply (Refused _ _ _ i); assumption.
Qed.

(** The injection calls of the two runs that reach the payload. *)
Lemma injections_refused v argv E i :
  well_formed v argv ->
  0 <= open_ret E (device argv) ->
  (i < List.length (payload argv))%nat ->
  refuses_at E 0 i ->
  injections (trace v argv E) =
  replies E 0 (firstn i (payload argv))
  ++ [(nth i (payload argv) CR, tiocsti_ret E i)].
Proof.
  intros Hwf Hfd Hi Hrej. unfold trace.
  rewrite (run_refused v argv E i Hwf Hfd Hi Hrej). cbn [snd injections].
  rewrite !injections_app, injections_prologue, injections_taken.
  reflexivity.
Qed.

Lemma injections_run_taken v argv E :
  well_formed v argv ->
  0 <= open_ret E (device argv) ->
  takes E 0 (List.length (payload argv)) ->
  injections (trace v argv E) =
  replies E 0 (payload argv)
  ++ injections (snd (epilogue v argv (open_ret E (device argv)) E
                        (List.length (payload argv)))).
Proof.
  intros Hwf Hfd Hall. unfold trace.
  rewrite (run_taken v argv E Hwf Hfd Hall). cbn [snd injections].
  rewrite !injections_app, injections_prologue, injections_taken.
  reflexivity.
Qed.

(** ** Exit status *)

Lemma exit_status_ill_formed v argv E :
  ~ well_formed v argv -> exit_status v argv E = 1.
Proof. intros H. unfold exit_status. rewrite run_ill_formed by exact H. reflexivity. Qed.

Lemma exit_status_open_failed v argv E :
  well_formed v argv -> open_ret E (device argv) < 0 -> exit_status v argv E = 1.
Proof.
  intros H Hfd. unfold exit_status. rewrite run_open_failed by assumption.
  reflexivity.
Qed.

Lemma exit_status_refused v argv E i :
  well_formed v argv ->
  0 <= open_ret E (device argv) ->
  (i < List.length (payload argv))%nat ->
  refuses_at E 0 i ->
  exit_status v argv E = 1.
Proof.
  intros H Hfd Hi Hrej. unfold exit_status.
  rewrite (run_refused v argv E i) by assumption. reflexivity.
Qed.

Lemma exit_status_taken v argv E :
  well_formed v argv ->
  0 <= open_ret E (device argv) ->
  takes E 0 (List.length (payload argv)) ->
  exit_status v argv E =
  match v with
  | Raw => if tiocsti_ret E (List.length (payload argv)) <? 0 then 1 else 0
  | _ => 0
  end.
Proof.
  intros H Hfd Hall. unfold exit_status.
  rewrite (run_taken v argv E) by assumption.
  destruct v; cbn; try reflexivity.
  destruct (_ <? 0); reflexivity.
Qed.

(** The exit status in terms of what the kernel took. *)
Lemma exit_zero_cases (v : variant) (argv : list string) (E : env) :
  exit_status v argv E = 0 <->
  well_formed v argv /\ 0 <= open_ret E (device argv) /\
  delivered (payload argv ++ fatal_framing v) (injections (trace v argv E))
  = true.
Proof.
  destruct (run_cases v argv E) as [Hwf|Hwf Hfd|i Hwf Hfd Hi Hrej|Hwf Hfd Hall].
  - rewrite exit_status_ill_formed by exact Hwf. split.
    + discriminate.
    + intros [H _]. contradiction.
  - rewrite exit_status_open_failed by assumption. split.
    + discriminate.
    + intros [_ [H _]]. lia.
  - rewrite (exit_status_refused v argv E i) by assumption.
    rewrite (injections_refused v argv E i) by assumption.
    rewrite (delivered_refused E (payload argv) 0 i) by assumption.
    split; [discriminate|]. intros [_ [_ H]]. discriminate H.
  - rewrite exit_status_taken, injections_run_taken by assumption.
    rewrite delivered_taken by assumption.
    destruct v; cbn; try (split; [intros _; repeat split; assumption|reflexivity]).
    destruct (Z.ltb_spec (tiocsti_ret E (List.length (payload argv))) 0)
      as [Hneg|Hpos]; cbn.
    + apply Z.leb_gt in Hneg. rewrite Hneg. cbn.
      split; [discriminate|]. intros [_ [_ H]]. discriminate H.
    + apply Z.leb_le in Hpos. rewrite Hpos. cbn.
      split; [intros _; repeat split; assumption|reflexivity].
Qed.

Lemma delivered_app_l : forall text more calls,
  delivered (text ++ more) calls = true -> delivered text calls = true.
Proof.
  induction text as [|c text IH]; intros more calls H; [reflexivity|].
  destruct calls as [|[c' r] calls]; [discriminate H|].
  cbn in *. apply andb_true_iff in H. destruct H as [H1 H2].
  rewrite H1. cbn. apply (IH more). exact H2.
Qed.

(** In the tools with soft framing, status 0 is the payload accepted. *)
Lemma exit_zero_soft (v : variant) (argv : list string) (E : env) :
  v <> Raw ->
  (exit_status v argv E = 0 <-> payload_accepted v argv E).
Proof.
  intros Hv. rewrite exit_zero_cases. unfold payload_accepted.
  destruct v; try contradiction; cbn [fatal_framing]; rewrite app_nil_r;
    reflexivity.
Qed.

(** C1 as stated fails on the strict raw tool: every payload byte is
    accepted, the CR is refused, and the status is 1. *)
Lemma exit_iff_payload_accepted_fails :
  ~ exit_iff_payload_accepted Raw cmd_raw (refusing 2).
Proof.
  intros [_ H].
  assert (Hacc : payload_accepted Raw cmd_raw (refusing 2)).
  { split; [reflexivity|]. split; [cbn; lia|reflexivity]. }
  specialize (H Hacc). vm_compute in H. discriminate H.
Qed.

(** C1, amended: the exit status is 0 exactly when every payload byte was
    accepted and, in the strict raw tool, the CR that follows the payload
    was accepted too.  A framing byte refused in the other tools, a bad
    argument list and a failed open each leave the equivalence intact. *)
Theorem exit_status_zero_iff (v : variant) (argv : list string) (E : env) :
  exit_status v argv E = 0 <->
  payload_accepted v argv E
  /\ (v = Raw ->
      delivered (payload argv ++ [CR]) (injections (trace v argv E)) = true).
Proof.
  rewrite exit_zero_cases. unfold payload_accepted. split.
  - intros [Hwf [Hfd Hd]]. split.
    + repeat split; try assumption. apply (delivered_app_l _ _ _ Hd).
    + intros ->. exact Hd.
  - intros [[Hwf [Hfd Hd]] Hraw]. repeat split; try assumption.
    destruct v; cbn [fatal_framing]; rewrite ?app_nil_r; try exact Hd.
    apply Hraw. reflexivity.
Qed.

(** ** A refused payload byte *)

Lemma nth_error_replies E : forall text n i,
  (i < List.length text)%nat ->
  nth_error (replies E n text) i = Some (nth i text CR, tiocsti_ret E (n + i)).
Proof.
  induction text as [|c text IH]; intros n i Hi; [simpl in Hi; lia|].
  destruct i as [|i]; cbn.
  - rewrite Nat.add_0_r. reflexivity.
  - simpl in Hi. rewrite IH by lia. rewrite <- plus_n_Sm. reflexivity.
Qed.

Lemma firstn_snoc_nth {A} (d : A) : forall (l : list A) i,
  (i < List.length l)%nat -> firstn (S i) l = firstn i l ++ [nth i l d].
Proof.
  induction l as [|a l IH]; intros i Hi; [simpl in Hi; lia|].
  destruct i as [|i]; [reflexivity|].
  simpl in Hi. cbn [firstn nth app]. f_equal. apply IH. lia.
Qed.

Lemma closes_prologue v fd E : filter is_close (prologue v fd E) = [].
Proof. destruct v; cbn; try reflexivity. destruct (_ <? 0); reflexivity. Qed.

Lemma closes_taken v fd E : forall text n,
  filter is_close (taken (pace v) fd E n text) = [].
Proof.
  induction text as [|a text IH]; intros n; [reflexivity|].
  cbn. rewrite filter_app, IH. destruct v; reflexivity.
Qed.

(** In a run whose [i]-th injection call carries a payload byte and is
    refused, the kernel took the [i] calls before it. *)
Lemma refused_call_is_first v argv E i c r :
  (i < List.length (payload argv))%nat ->
  nth_error (injections (trace v argv E)) i = Some (c, r) ->
  r < 0 ->
  well_formed v argv /\ 0 <= open_ret E (device argv) /\ refuses_at E 0 i.
Proof.
  intros Hi Hnth Hr.
  destruct (run_cases v argv E) as [Hwf|Hwf Hfd|j Hwf Hfd Hj Hrej|Hwf Hfd Hall].
  - unfold trace in Hnth. rewrite run_ill_formed in Hnth by exact Hwf.
    destruct i; discriminate Hnth.
  - unfold trace in Hnth. rewrite run_open_failed in Hnth by assumption.
    destruct i; discriminate Hnth.
  - rewrite (injections_refused v argv E j) in Hnth by assumption.
    destruct (Nat.lt_trichotomy i j) as [Hlt|[Heq|Hgt]].
    + rewrite nth_error_app1 in Hnth
        by (rewrite length_replies, length_firstn; lia).
      rewrite nth_error_replies in Hnth by (rewrite length_firstn; lia).
      injection Hnth as Hc Hr'. destruct Hrej as [Hpre _].
      specialize (Hpre i Hlt). cbn in Hr', Hpre. lia.
    + subst j. repeat split; try assumption; apply Hrej.
    + assert (Hnone : nth_error
        (replies E 0 (firstn j (payload argv))
         ++ [(nth j (payload argv) CR, tiocsti_ret E j)]) i = None).
      { apply nth_error_None.
        rewrite length_app, length_replies, length_firstn. cbn. lia. }
      rewrite Hnone in Hnth. discriminate Hnth.
  - rewrite injections_run_taken in Hnth by assumption.
    rewrite nth_error_app1 in Hnth by (rewrite length_replies; lia).
    rewrite nth_error_replies in Hnth by exact Hi.
    injection Hnth as Hc Hr'. specialize (Hall i Hi). cbn in Hr', Hall. lia.
Qed.

(** C2: when the injection of payload byte [i] fails, byte [i] is the last
    one handed to the kernel, the [i] bytes before it stay delivered, the
    diagnostic of the failing operation is printed, the run ends by closing
    the device, and the exit status is 1. *)
Theorem payload_failure_aborts (v : variant) (argv : list string) (E : env)
        (i : nat) (c : ascii) (r : Z) :
  (i < List.length (payload argv))%nat ->
  nth_error (injections (trace v argv E)) i = Some (c, r) ->
  r < 0 ->
  injected (trace v argv E) = firstn (S i) (payload argv)
  /\ accepted (trace v argv E) = firstn i (payload argv)
  /\ In (Perror "Failed to send character") (trace v argv E)
  /\ (exists before,
        trace v argv E = before ++ [Close (open_ret E (device argv))]
        /\ filter is_close before = [])
  /\ exit_status v argv E = 1.
Proof.
  intros Hi Hnth Hr.
  destruct (refused_call_is_first v argv E i c r Hi Hnth Hr)
    as [Hwf [Hfd Hrej]].
  assert (Hinj := injections_refused v argv E i Hwf Hfd Hi Hrej).
  split; [|split; [|split; [|split]]].
  - unfold injected. rewrite Hinj, map_app, map_fst_replies. cbn.
    symmetry. apply firstn_snoc_nth. exact Hi.
  - unfold accepted. rewrite Hinj, filter_app.
    rewrite filter_replies_taken
      by (apply takes_firstn; [lia|apply Hrej]).
    rewrite map_app, map_fst_replies. cbn.
    destruct Hrej as [_ Hrej]. apply Z.leb_gt in Hrej. cbn in Hrej.
    rewrite Hrej. cbn. apply app_nil_r.
  - unfold trace. rewrite (run_refused v argv E i) by assumption. cbn [snd].
    right. apply in_or_app. right. apply in_or_app. right.
    right. left. reflexivity.
  - unfold trace. rewrite (run_refused v argv E i) by assumption. cbn [snd].
    set (fd := open_ret E (device argv)).
    exists (Open (device argv) fd :: prologue v fd E
            ++ taken (pace v) fd E 0 (firstn i (payload argv))
            ++ [Tiocsti fd (nth i (payload argv) CR) (tiocsti_ret E i);
                Perror "Failed to send character"]).
    split.
    + cbn. rewrite <- !app_assoc. reflexivity.
    + cbn [filter is_close].
      rewrite !filter_app, closes_prologue, closes_taken. reflexivity.
  - apply (exit_status_refused v argv E i); assumption.
Qed.

Lemma payload_failure_aborts_witness :
  injected (trace Pty cmd_pty (refusing 1)) = firstn 2 (payload cmd_pty)
  /\ accepted (trace Pty cmd_pty (refusing 1)) = firstn 1 (payload cmd_pty)
  /\ In (Perror "Failed to send character") (trace Pty cmd_pty (refusing 1))
  /\ (exists before,
        trace Pty cmd_pty (refusing 1)
        = before ++ [Close (open_ret (refusing 1) (device cmd_pty))]
        /\ filter is_close before = [])
  /\ exit_status Pty cmd_pty (refusing 1) = 1.
Proof.
  apply (payload_failure_aborts Pty cmd_pty (refusing 1) 1 "i"%char (-1)).
  - vm_compute. lia.
  - reflexivity.
  - lia.
Defined.

(** ** The usage line *)

Lemma usage_prologue v fd E : filter is_usage (prologue v fd E) = [].
Proof. destruct v; cbn; try reflexivity. destruct (_ <? 0); reflexivity. Qed.

Lemma usage_taken v fd E : forall text n,
  filter is_usage (taken (pace v) fd E n text) = [].
Proof.
  induction text as [|a text IH]; intros n; [reflexivity|].
  cbn. rewrite filter_app, IH. destruct v; reflexivity.
Qed.

Lemma usage_epilogue v argv fd E n :
  filter is_usage (snd (epilogue v argv fd E n)) = [].
Proof. destruct v; branches. Qed.

(** The usage line is printed for the ill-formed command lines and for no
    other. *)
Lemma usage_iff_ill_formed v argv E :
  filter is_usage (trace v argv E) = [] <-> well_formed v argv.
Proof.
  unfold trace.
  destruct (run_cases v argv E) as [Hwf|Hwf Hfd|i Hwf Hfd Hi Hrej|Hwf Hfd Hall].
  - rewrite run_ill_formed by exact Hwf. split; [|contradiction].
    destruct v; discriminate.
  - rewrite run_open_failed by assumption. split; [intros _; exact Hwf|reflexivity].
  - rewrite (run_refused v argv E i) by assumption.
    split; [intros _; exact Hwf|intros _].
    cbn [snd filter is_usage].
    rewrite !filter_app, usage_prologue, usage_taken. reflexivity.
  - rewrite run_taken by assumption.
    split; [intros _; exact Hwf|intros _].
    cbn [snd filter is_usage].
    rewrite !filter_app, usage_prologue, usage_taken, usage_epilogue.
    reflexivity.
Qed.

(** ** The optional end-of-line token *)

(** C3 as stated fails: an unrecognised token is not rejected. *)
Lemma rejects_unknown_token_fails :
  ~ rejects_unknown_token cmd_bogus_token willing.
Proof.
  intros H. destruct H as [_ H].
  - reflexivity.
  - discriminate.
  - discriminate.
  - apply H. reflexivity.
Qed.

Lemma no_token_same_run a0 a1 a2 a3 E :
  a3 <> "enter"%string ->
  run NoEnter [a0; a1; a2; a3] E = run NoEnter [a0; a1; a2] E.
Proof.
  intros H. apply String.eqb_neq in H.
  unfold run, program, SendKeysNoEnter.main.
  change (arg [a0; a1; a2; a3] 3) with a3. rewrite H.
  reflexivity.
Qed.

(** C3, amended: the tool checks the argument count only.  With four
    arguments of which the last is not [enter] -- [none] or any other word
    -- no usage line is printed and the run is the run of the same command
    line without the token: the payload and no framing, with status 0
    exactly when the payload is accepted. *)
Theorem token_other_than_enter_is_none (argv : list string) (E : env) :
  List.length argv = 4%nat ->
  arg argv 3 <> "enter"%string ->
  run NoEnter argv E = run NoEnter (firstn 3 argv) E
  /\ filter is_usage (trace NoEnter argv E) = []
  /\ (exit_status NoEnter argv E = 0 <-> payload_accepted NoEnter argv E).
Proof.
  intros Hlen Htok.
  assert (Hwf : well_formed NoEnter argv) by (right; exact Hlen).
  split; [|split].
  - destruct argv as [|a0 [|a1 [|a2 [|a3 [|]]]]]; try discriminate Hlen.
    apply no_token_same_run. exact Htok.
  - apply usage_iff_ill_formed. exact Hwf.
  - apply exit_zero_soft. discriminate.
Qed.

Lemma token_other_than_enter_is_none_witness :
  run NoEnter cmd_bogus_token willing
  = run NoEnter (firstn 3 cmd_bogus_token) willing
  /\ filter is_usage (trace NoEnter cmd_bogus_token willing) = []
  /\ (exit_status NoEnter cmd_bogus_token willing = 0 <->
      payload_accepted NoEnter cmd_bogus_token willing).
Proof.
  apply (token_other_than_enter_is_none cmd_bogus_token willing).
  - reflexivity.
  - discriminate.
Defined.

(** ** The attribute query of send-keys-pty *)

(** C4 at its failing input: after a failed query the run goes on and
    reports the failure, but the test of send-keys-pty.c:52 reads the
    [tios] nothing was stored in, and here the LF follows the CR. *)
Theorem failed_query_reads_stale_lflag :
  tcgetattr_ret query_fails_stale_canon < 0
  /\ run Pty cmd_pty query_fails_stale_canon
     = (0, [Open "/dev/pts/1" 3; Tcgetattr 3 (-1); Perror "tcgetattr failed";
            Tiocsti 3 "h" 0; Usleep 1000; Tiocsti 3 "i" 0; Usleep 1000;
            Tiocsti 3 CR 0; Usleep 10000; Tiocsti 3 LF 0; Close 3]).
Proof. split; [reflexivity|vm_compute; reflexivity]. Qed.

(** What the tool sends after a failed query is decided by the stale word. *)
Lemma failed_query_framing argv E :
  well_formed Pty argv ->
  0 <= open_ret E (device argv) ->
  takes E 0 (List.length (payload argv)) ->
  tcgetattr_ret E < 0 ->
  exit_status Pty argv E = 0
  /\ In (Perror "tcgetattr failed") (trace Pty argv E)
  /\ injected (trace Pty argv E) =
     payload argv
     ++ CR :: (if Z.land (auto_lflag E) ICANON =? 0 then [] else [LF]).
Proof.
  intros Hwf Hfd Hall Hq. apply Z.ltb_lt in Hq. split; [|split].
  - apply exit_status_taken; assumption.
  - unfold trace. rewrite run_taken by assumption. cbn [snd prologue].
    rewrite Hq. right. right. left. reflexivity.
  - unfold injected. rewrite injections_run_taken by assumption.
    rewrite map_app, map_fst_replies. f_equal.
    unfold epilogue, tested_lflag, soft. rewrite Hq.
    destruct (Z.land (auto_lflag E) ICANON =? 0); branches.
Qed.

(** ** Order of the injected bytes *)

Lemma injected_epilogue v argv fd E n :
  let framing := injected (snd (epilogue v argv fd E n)) in
  framing = [] \/ framing = [CR] \/ framing = [CR; LF].
Proof.
  destruct v; unfold injected; branches; auto.
Qed.

(** C5: on a successful run the bytes handed to the injection facility are
    the payload, byte for byte and in order, one byte per call, each taken
    by the kernel; whatever follows is framing: nothing, CR, or CR LF. *)
Theorem payload_injected_in_order (v : variant) (argv : list string) (E : env) :
  exit_status v argv E = 0 ->
  exists framing,
    injected (trace v argv E) = payload argv ++ framing
    /\ (framing = [] \/ framing = [CR] \/ framing = [CR; LF])
    /\ List.length (injections (trace v argv E))
       = (List.length (payload argv) + List.length framing)%nat
    /\ delivered (payload argv) (injections (trace v argv E)) = true.
Proof.
  intros Hexit.
  destruct (run_cases v argv E) as [Hwf|Hwf Hfd|i Hwf Hfd Hi Hrej|Hwf Hfd Hall].
  - rewrite exit_status_ill_formed in Hexit by exact Hwf. discriminate.
  - rewrite exit_status_open_failed in Hexit by assumption. discriminate.
  - rewrite (exit_status_refused v argv E i) in Hexit by assumption.
    discriminate.
  - set (fd := open_ret E (device argv)).
    set (n := List.length (payload argv)).
    exists (injected (snd (epilogue v argv fd E n))).
    split; [|split; [apply injected_epilogue|]].
    + unfold injected. rewrite injections_run_taken by assumption.
      rewrite map_app, map_fst_replies. reflexivity.
    + rewrite injections_run_taken by assumption. fold fd n. split.
      * unfold injected.
        rewrite length_app, length_replies, length_map. reflexivity.
      * rewrite <- (app_nil_r (payload argv)) at 1.
        apply delivered_taken. exact Hall.
Qed.

Lemma payload_injected_in_order_witness :
  exists framing,
    injected (trace Plain cmd_plain willing) = payload cmd_plain ++ framing
    /\ (framing = [] \/ framing = [CR] \/ framing = [CR; LF])
    /\ List.length (injections (trace Plain cmd_plain willing))
       = (List.length (payload cmd_plain) + List.length framing)%nat
    /\ delivered (payload cmd_plain) (injections (trace Plain cmd_plain willing))
       = true.
Proof.
  apply (payload_injected_in_order Plain cmd_plain willing).
  reflexivity.
Defined.

(** ** End-of-line framing *)

Lemma land_ICANON x : (Z.land x ICANON =? 0) = negb (canonical x).
Proof.
  unfold canonical, ICANON. change 2 with (2 ^ 1).
  destruct (Z.testbit x 1) eqn:Hb; cbn [negb].
  - apply Z.eqb_neq. intros H.
    assert (Hbit : Z.testbit (Z.land x (2 ^ 1)) 1 = true).
    { rewrite Z.land_spec, Hb, Z.pow2_bits_true by lia. reflexivity. }
    rewrite H in Hbit. rewrite Z.bits_0 in Hbit. discriminate Hbit.
  - apply Z.eqb_eq. apply Z.bits_inj'. intros n Hn.
    rewrite Z.land_spec, Z.bits_0, Z.pow2_bits_eqb by lia.
    destruct (Z.eqb_spec 1 n) as [<-|_].
    + rewrite Hb. reflexivity.
    + apply andb_false_r.
Qed.

Lemma payload_accepted_takes v argv E :
  payload_accepted v argv E -> takes E 0 (List.length (payload argv)).
Proof.
  intros [Hwf [Hfd Hd]].
  destruct (run_cases v argv E) as [Hwf'|_ Hfd'|i _ _ Hi Hrej|_ _ Hall].
  - contradiction.
  - lia.
  - rewrite (injections_refused v argv E i) in Hd by assumption.
    rewrite <- (app_nil_r (payload argv)) in Hd at 1.
    rewrite (delivered_refused E (payload argv) 0 i) in Hd by assumption.
    discriminate Hd.
  - exact Hall.
Qed.

(** C6 on the code: wherever framing applies the CR comes first after the
    payload, and the LF follows it exactly when the tool sends it
    unconditionally or the word it tests has the canonical bit.  That word
    is the snapshot -- and the claim holds as stated -- in every tool but
    send-keys-pty and in send-keys-pty whenever the query succeeds; after a
    failed query there is no snapshot, the word is the stale content of
    [tios], and the LF follows the CR when that content has the bit: the
    defect shown for C4. *)
Theorem framing_follows_tested_word (v : variant) (argv : list string)
        (E : env) :
  payload_accepted v argv E ->
  framing_applies v argv ->
  injected (trace v argv E) =
  payload argv ++ CR :: (if lf_sent v E then [LF] else [])
  /\ (v <> Pty \/ 0 <= tcgetattr_ret E -> lf_sent v E = canonical_framing v E)
  /\ (v = Pty -> tcgetattr_ret E < 0 -> lf_sent v E = canonical (auto_lflag E)).
Proof.
  intros Hacc Happ.
  assert (Hall := payload_accepted_takes v argv E Hacc).
  destruct Hacc as [Hwf [Hfd _]].
  split; [|split].
  - unfold injected. rewrite injections_run_taken by assumption.
    rewrite map_app, map_fst_replies. f_equal.
    destruct v; cbn [lf_sent].
    + branches.
    + branches.
    + destruct Happ as [Hlen Htok]. unfold epilogue, argc.
      rewrite Hlen, Htok. branches.
    + unfold epilogue. rewrite land_ICANON, negb_involutive.
      destruct (canonical (tested_lflag E)); branches.
  - intros Hq. destruct v; try reflexivity.
    destruct Hq as [Hq|Hq]; [contradiction|]. apply Z.ltb_ge in Hq.
    cbn [lf_sent canonical_framing]. unfold tested_lflag. rewrite Hq.
    reflexivity.
  - intros -> Hq. apply Z.ltb_lt in Hq.
    cbn [lf_sent]. unfold tested_lflag. rewrite Hq. reflexivity.
Qed.

Lemma framing_follows_tested_word_witness :
  tcgetattr_ret query_fails_stale_canon < 0
  /\ canonical_framing Pty query_fails_stale_canon = false
  /\ injected (trace Pty cmd_pty query_fails_stale_canon)
     = payload cmd_pty ++ [CR; LF].
Proof.
  destruct (framing_follows_tested_word Pty cmd_pty query_fails_stale_canon)
    as [Hinj _].
  - split; [reflexivity|]. split; [cbn; lia|reflexivity].
  - exact I.
  - split; [reflexivity|]. split; [reflexivity|exact Hinj].
Defined.

(** ** Pacing of send-keys-pty *)

(** C7 as stated fails: the sleep that closes the last iteration of the
    loop comes after the last payload byte, before the CR. *)
Lemma delay_only_between_payload_bytes_fails :
  ~ delay_only_between_payload_bytes cmd_pty_a willing.
Proof.
  intros H.
  specialize (H [Open "/dev/pts/1" 3; Tcgetattr 3 0; Tiocsti 3 "a" 0]
                [Tiocsti 3 CR 0; Usleep 10000; Tiocsti 3 LF 0; Close 3]
                eq_refl).
  cbn in H. lia.
Qed.

Lemma paced_due len seen tr :
  paced len seen true tr = true -> exists tr', tr = Usleep 1000 :: tr'.
Proof.
  destruct tr as [|e tr']; [discriminate|].
  destruct e; cbn; try discriminate.
  destruct (Z.eqb_spec usec 1000) as [->|_]; [|discriminate].
  intros _. exists tr'. reflexivity.
Qed.

(** Reading one event. *)
Lemma paced_step len seen due e tr :
  paced len seen due (e :: tr) = true ->
  exists due',
    paced len (seen + List.length (injections [e])) due' tr = true
    /\ (due = true -> e = Usleep 1000)
    /\ (e = Usleep 1000 -> due = true)
    /\ (due' = true ->
        exists fd c r, e = Tiocsti fd c r /\ 0 <= r /\ (seen < len)%nat)
    /\ (forall fd c r, e = Tiocsti fd c r -> 0 <= r -> (seen < len)%nat ->
        due' = true).
Proof.
  destruct e; cbn [paced injections List.length]; rewrite ?Nat.add_0_r, ?Nat.add_1_r.
  3: { intros H. apply andb_true_iff in H. destruct H as [Hd H].
       apply negb_true_iff in Hd. subst due.
       exists ((seen <? len)%nat && (0 <=? ret0)). split; [exact H|].
       repeat split; try discriminate.
       - intros Hdue. apply andb_true_iff in Hdue. destruct Hdue as [H1 H2].
         apply Nat.ltb_lt in H1. apply Z.leb_le in H2.
         exists fd, c, ret0. repeat split; assumption.
       - intros fd' c' r' Heq Hr Hlt. injection Heq as -> -> ->.
         apply andb_true_iff. split; [apply Nat.ltb_lt|apply Z.leb_le]; assumption. }
  3: { destruct (Z.eqb_spec usec 1000) as [->|Hne]; intros H;
       apply andb_true_iff in H; destruct H as [Hd H]; exists false;
       (split; [exact H|]).
       - subst due. repeat split; try discriminate; reflexivity.
       - apply negb_true_iff in Hd. subst due.
         repeat split; try discriminate.
         intros Heq. injection Heq as Heq. contradiction. }
  all: intros H; apply andb_true_iff in H; destruct H as [Hd H];
    apply negb_true_iff in Hd; subst due; exists false;
    (split; [exact H|]); repeat split; discriminate.
Qed.

Lemma injections_cons_length e tr :
  List.length (injections (e :: tr))
  = (List.length (injections [e]) + List.length (injections tr))%nat.
Proof. destruct e; reflexivity. Qed.

(** In a paced trace every 1 ms sleep comes directly after a payload byte
    the kernel took. *)
Lemma paced_sleep_after_taken : forall tr len seen due,
  paced len seen due tr = true ->
  forall pre post,
    tr = pre ++ Usleep 1000 :: post ->
    (pre = [] /\ due = true)
    \/ exists pre' fd c r,
         pre = pre' ++ [Tiocsti fd c r] /\ 0 <= r
         /\ (seen + List.length (injections pre') < len)%nat.
Proof.
  induction tr as [|e tr IH]; intros len seen due Hp pre post Heq.
  - destruct pre; discriminate Heq.
  - destruct (paced_step _ _ _ _ _ Hp) as [due' [Hp' [Hd1 [Hd2 [Hd3 Hd4]]]]].
    destruct pre as [|e0 pre0].
    + left. split; [reflexivity|]. injection Heq as -> _.
      apply Hd2. reflexivity.
    + right. injection Heq as <- Heq.
      destruct (IH _ _ _ Hp' pre0 post Heq)
        as [[-> Hdue]|[pre' [fd [c [r [-> [Hr Hlt]]]]]]].
      * destruct (Hd3 Hdue) as [fd [c [r [-> [Hr Hlt]]]]].
        exists [], fd, c, r. cbn. repeat split; try assumption. lia.
      * exists (e :: pre'), fd, c, r. split; [reflexivity|].
        split; [exact Hr|]. rewrite injections_cons_length. lia.
Qed.

(** In a paced trace every payload byte the kernel took is directly
    followed by the 1 ms sleep. *)
Lemma paced_taken_then_sleep : forall tr len seen due,
  paced len seen due tr = true ->
  forall pre fd c r post,
    tr = pre ++ Tiocsti fd c r :: post ->
    0 <= r ->
    (seen + List.length (injections pre) < len)%nat ->
    exists post', post = Usleep 1000 :: post'.
Proof.
  induction tr as [|e tr IH]; intros len seen due Hp pre fd c r post Heq Hr Hlt.
  - destruct pre; discriminate Heq.
  - destruct (paced_step _ _ _ _ _ Hp) as [due' [Hp' [Hd1 [Hd2 [Hd3 Hd4]]]]].
    destruct pre as [|e0 pre0].
    + injection Heq as -> ->. cbn in Hlt. rewrite Nat.add_0_r in Hlt.
      rewrite (Hd4 fd c r eq_refl Hr Hlt) in Hp'.
      apply (paced_due _ _ _ Hp').
    + injection Heq as <- Heq.
      apply (IH _ _ _ Hp' pre0 fd c r post Heq Hr).
      rewrite injections_cons_length in Hlt. lia.
Qed.

Lemma paced_prologue len seen fd E tr :
  paced len seen false (prologue Pty fd E ++ tr) = paced len seen false tr.
Proof. cbn. destruct (_ <? 0); reflexivity. Qed.

Lemma paced_taken len fd E tr : forall text n seen,
  takes E n (List.length text) ->
  (seen + List.length text <= len)%nat ->
  paced len seen false (taken [Usleep 1000] fd E n text ++ tr)
  = paced len (seen + List.length text) false tr.
Proof.
  induction text as [|c text IH]; intros n seen Hall Hle.
  - cbn. rewrite Nat.add_0_r. reflexivity.
  - simpl List.length in *. apply takes_S in Hall. destruct Hall as [H0 Hall].
    cbn [taken app paced negb]. apply Z.leb_le in H0. rewrite H0.
    assert (Hlt : (seen <? len)%nat = true) by (apply Nat.ltb_lt; lia).
    rewrite Hlt. change (1000 =? 1000) with true. cbn [andb].
    rewrite IH by (assumption || lia).
    rewrite <- plus_n_Sm. reflexivity.
Qed.

Lemma paced_epilogue argv fd E len :
  paced len len false (snd (epilogue Pty argv fd E len)) = true.
Proof.
  assert (H1 : (len <? len)%nat = false) by (apply Nat.ltb_ge; lia).
  assert (H2 : (S len <? len)%nat = false) by (apply Nat.ltb_ge; lia).
  unfold epilogue, soft, tested_lflag. cbn [snd].
  destruct (tiocsti_ret E len <? 0);
    destruct (negb (Z.land _ ICANON =? 0));
    try destruct (tiocsti_ret E (S len) <? 0);
    cbn -[Nat.ltb]; rewrite ?H1, ?H2; reflexivity.
Qed.

(** Every run of send-keys-pty is paced. *)
Lemma paced_run argv E :
  paced (List.length (payload argv)) 0 false (trace Pty argv E) = true.
Proof.
  unfold trace.
  destruct (run_cases Pty argv E) as [Hwf|Hwf Hfd|i Hwf Hfd Hi Hrej|Hwf Hfd Hall].
  - rewrite run_ill_formed by exact Hwf. reflexivity.
  - rewrite run_open_failed by assumption. reflexivity.
  - rewrite (run_refused Pty argv E i) by assumption. cbn [snd pace].
    cbn [paced negb andb]. rewrite paced_prologue.
    rewrite paced_taken
      by first [apply takes_firstn; [lia|apply Hrej]|rewrite length_firstn; lia].
    destruct Hrej as [_ Hrej]. apply Z.leb_gt in Hrej. cbn in Hrej |- *.
    rewrite Hrej, andb_false_r. reflexivity.
  - rewrite run_taken by assumption. cbn [snd pace].
    cbn [paced negb andb]. rewrite paced_prologue.
    rewrite paced_taken by (assumption || lia).
    apply paced_epilogue.
Qed.

(** Two ways of splitting a trace at an injection call with the same
    number of injection calls before it are the same split. *)
Lemma injection_split_unique : forall pre1 pre2 fd1 c1 r1 fd2 c2 r2 post1 post2,
  pre1 ++ Tiocsti fd1 c1 r1 :: post1 = pre2 ++ Tiocsti fd2 c2 r2 :: post2 ->
  List.length (injections pre1) = List.length (injections pre2) ->
  pre1 = pre2 /\ Tiocsti fd1 c1 r1 = Tiocsti fd2 c2 r2 /\ post1 = post2.
Proof.
  induction pre1 as [|a pre1 IH];
    intros [|b pre2] fd1 c1 r1 fd2 c2 r2 post1 post2 Heq Hlen.
  - injection Heq as -> -> -> ->. repeat split.
  - injection Heq as <- _. cbn in Hlen. discriminate Hlen.
  - injection Heq as -> _. cbn in Hlen. discriminate Hlen.
  - injection Heq as -> Heq.
    rewrite (injections_cons_length b pre1), (injections_cons_length b pre2)
      in Hlen.
    destruct (IH pre2 _ _ _ _ _ _ _ _ Heq ltac:(lia)) as [-> [He ->]].
    repeat split. exact He.
Qed.

(** A stretch of taken payload, split at its [k]-th byte. *)
Lemma taken_split p fd E : forall text n k,
  (k < List.length text)%nat ->
  taken p fd E n text =
  taken p fd E n (firstn k text)
  ++ Tiocsti fd (nth k text CR) (tiocsti_ret E (n + k))
     :: p ++ taken p fd E (n + S k) (skipn (S k) text).
Proof.
  induction text as [|c text IH]; intros n k Hk; [simpl in Hk; lia|].
  destruct k as [|k].
  - cbn. rewrite Nat.add_0_r, Nat.add_1_r. reflexivity.
  - simpl in Hk. cbn [firstn taken skipn nth].
    rewrite (IH (S n) k) by lia.
    rewrite <- !plus_n_Sm. cbn [Nat.add].
    rewrite <- app_comm_cons, <- app_assoc. reflexivity.
Qed.

(** What is injected next after the first [j] bytes of a stretch that is
    followed by the injection of [c0]. *)
Lemma next_injection p fd E c0 r0 rest : forall text m j,
  (j <= List.length text)%nat ->
  exists r' rest',
    taken p fd E m (skipn j text) ++ Tiocsti fd c0 r0 :: rest
    = Tiocsti fd (nth j (text ++ [c0]) CR) r' :: rest'.
Proof.
  induction text as [|a text IH]; intros m j Hj.
  - simpl in Hj. replace j with 0%nat by lia. cbn. eauto.
  - destruct j as [|j].
    + cbn. eauto.
    + simpl in Hj. cbn [skipn app nth]. apply IH. lia.
Qed.

(** In a trace that holds a stretch of taken, paced payload followed by
    the injection of [c0], each byte of the stretch is followed by the 1 ms
    sleep and then by the injection of the byte after it. *)
Lemma sleep_then_next_in_stretch fd E before text c0 r0 rest
      pre fd' c r post :
  injections before = [] ->
  before ++ taken [Usleep 1000] fd E 0 text ++ Tiocsti fd c0 r0 :: rest
  = pre ++ Tiocsti fd' c r :: post ->
  (List.length (injections pre) < List.length text)%nat ->
  fd' = fd
  /\ exists r' post',
       post = Usleep 1000
              :: Tiocsti fd (nth (S (List.length (injections pre)))
                               (text ++ [c0]) CR) r'
              :: post'.
Proof.
  intros Hb Heq Hk. set (k := List.length (injections pre)) in *.
  rewrite (taken_split [Usleep 1000] fd E text 0 k Hk) in Heq.
  rewrite <- !app_assoc in Heq. rewrite app_assoc in Heq.
  cbn [app] in Heq.
  apply injection_split_unique in Heq.
  - destruct Heq as [_ [He Hpost]]. injection He as <- _ _.
    split; [reflexivity|]. subst post.
    destruct (next_injection [Usleep 1000] fd E c0 r0 rest text (0 + S k) (S k)
                ltac:(lia)) as [r' [rest' Hnext]].
    exists r', rest'. rewrite Hnext. reflexivity.
  - rewrite injections_app, Hb. cbn [app].
    change [Usleep 1000] with (pace Pty).
    rewrite injections_taken, length_replies, length_firstn.
    fold k. lia.
Qed.

(** After a payload byte the kernel took, send-keys-pty sleeps 1 ms and
    then injects the next byte: the next payload byte, or the CR after the
    last one. *)
Lemma pty_sleep_then_next argv E pre fd c r post :
  trace Pty argv E = pre ++ Tiocsti fd c r :: post ->
  0 <= r ->
  (List.length (injections pre) < List.length (payload argv))%nat ->
  exists r' post',
    post = Usleep 1000
           :: Tiocsti fd (nth (S (List.length (injections pre)))
                            (payload argv ++ [CR]) CR) r'
           :: post'.
Proof.
  unfold trace. intros Heq Hr Hk.
  destruct (run_cases Pty argv E) as [Hwf|Hwf Hfd|i Hwf Hfd Hi Hrej|Hwf Hfd Hall].
  - rewrite run_ill_formed in Heq by exact Hwf.
    apply (f_equal injections) in Heq. rewrite injections_app in Heq.
    cbn in Heq. destruct (injections pre); discriminate Heq.
  - rewrite run_open_failed in Heq by assumption.
    apply (f_equal injections) in Heq. rewrite injections_app in Heq.
    cbn in Heq. destruct (injections pre); discriminate Heq.
  - rewrite (run_refused Pty argv E i) in Heq by assumption.
    cbn [snd pace] in Heq. rewrite app_comm_cons in Heq.
    set (d := open_ret E (device argv)) in *.
    assert (Hb : injections (Open (device argv) d :: prologue Pty d E) = [])
      by apply (injections_prologue Pty).
    assert (Hlen : List.length (firstn i (payload argv)) = i)
      by (rewrite length_firstn; lia).
    assert (Hcount := f_equal (fun t => List.length (injections t)) Heq).
    cbv beta in Hcount.
    rewrite !injections_app, Hb in Hcount. cbn [app] in Hcount.
    change [Usleep 1000] with (pace Pty) in Hcount.
    rewrite injections_taken in Hcount. cbn [injections] in Hcount.
    rewrite !length_app, length_replies, Hlen in Hcount. cbn in Hcount.
    destruct (Nat.eq_dec (List.length (injections pre)) i) as [Hki|Hki].
    + exfalso. rewrite app_assoc in Heq.
      apply injection_split_unique in Heq.
      * destruct Heq as [_ [He _]]. injection He as _ _ He.
        destruct Hrej as [_ Hrej]. cbn in Hrej. lia.
      * rewrite injections_app, Hb. cbn [app].
        change [Usleep 1000] with (pace Pty).
        rewrite injections_taken, length_replies, Hlen. symmetry. exact Hki.
    + destruct (sleep_then_next_in_stretch d E _ _ _ _ _ _ _ _ _ _ Hb Heq
                  ltac:(lia)) as [-> [r' [post' Hpost]]].
      exists r', post'. rewrite Hpost.
      rewrite <- (firstn_snoc_nth CR) by exact Hi.
      rewrite nth_firstn, (app_nth1 (payload argv)) by lia.
      assert (Hlt : (S (List.length (injections pre)) <? S i)%nat = true)
        by (apply Nat.ltb_lt; lia).
      rewrite Hlt. reflexivity.
  - rewrite run_taken in Heq by assumption.
    cbn [snd pace epilogue] in Heq. rewrite app_comm_cons in Heq.
    set (d := open_ret E (device argv)) in *.
    assert (Hb : injections (Open (device argv) d :: prologue Pty d E) = [])
      by apply (injections_prologue Pty).
    destruct (sleep_then_next_in_stretch d E _ _ _ _ _ _ _ _ _ _ Hb Heq Hk)
      as [-> H].
    exact H.
Qed.

(** C7, amended: in send-keys-pty the 1 ms sleep comes directly after a
    payload byte the kernel took and nowhere else -- so never before the
    first payload byte -- and every such byte, the last one included, is
    directly followed by it; what the sleep is directly followed by is the
    injection of the next payload byte or, after the last payload byte, of
    the CR. *)
Theorem delay_follows_each_payload_byte (argv : list string) (E : env) :
  (forall pre post,
     trace Pty argv E = pre ++ Usleep 1000 :: post ->
     exists pre' fd c r,
       pre = pre' ++ [Tiocsti fd c r] /\ 0 <= r
       /\ (List.length (injections pre') < List.length (payload argv))%nat)
  /\ (forall pre fd c r post,
        trace Pty argv E = pre ++ Tiocsti fd c r :: post ->
        0 <= r ->
        (List.length (injections pre) < List.length (payload argv))%nat ->
        exists r' post',
          post = Usleep 1000
                 :: Tiocsti fd (nth (S (List.length (injections pre)))
                                  (payload argv ++ [CR]) CR) r'
                 :: post').
Proof.
  split.
  - intros pre post Heq.
    destruct (paced_sleep_after_taken _ _ _ _ (paced_run argv E) pre post Heq)
      as [[_ Hdue]|H]; [discriminate Hdue|exact H].
  - intros pre fd c r post Heq Hr Hlt.
    apply (pty_sleep_then_next argv E pre fd c r post Heq Hr Hlt).
Qed.

(** ** The device handle *)

Lemma opens_prologue v fd E : filter is_open (prologue v fd E) = [].
Proof. destruct v; cbn; try reflexivity. destruct (_ <? 0); reflexivity. Qed.

Lemma opens_taken v fd E : forall text n,
  filter is_open (taken (pace v) fd E n text) = [].
Proof.
  induction text as [|a text IH]; intros n; [reflexivity|].
  cbn. rewrite filter_app, IH. destruct v; reflexivity.
Qed.

Lemma opens_epilogue v argv fd E n :
  filter is_open (snd (epilogue v argv fd E n)) = [].
Proof. destruct v; branches. Qed.

(** The events after the payload end with the one [close]. *)
Lemma epilogue_ends_closed v argv fd E n :
  let tail := snd (epilogue v argv fd E n) in
  tail = removelast tail ++ [Close fd]
  /\ filter is_close (removelast tail) = [].
Proof. destruct v; branches; split; reflexivity. Qed.

(** The only [open] of a run is its first event. *)
Lemma open_event_of_run v argv E path fd :
  In (Open path fd) (trace v argv E) ->
  well_formed v argv /\ path = device argv /\ fd = open_ret E (device argv).
Proof.
  unfold trace. intros Hin.
  assert (Hno : forall l, filter is_open l = [] -> ~ In (Open path fd) l).
  { intros l Hl Hl'. assert (H : In (Open path fd) (filter is_open l))
      by (apply filter_In; split; [exact Hl'|reflexivity]).
    rewrite Hl in H. exact H. }
  destruct (run_cases v argv E) as [Hwf|Hwf Hfd|i Hwf Hfd Hi Hrej|Hwf Hfd Hall].
  - rewrite run_ill_formed in Hin by exact Hwf.
    destruct Hin as [Hin|[]]. discriminate Hin.
  - rewrite run_open_failed in Hin by assumption.
    destruct Hin as [Hin|[Hin|[]]]; [|discriminate Hin].
    injection Hin as <- <-. repeat split. exact Hwf.
  - rewrite (run_refused v argv E i) in Hin by assumption.
    destruct Hin as [Hin|Hin]; [injection Hin as <- <-; repeat split; exact Hwf|].
    exfalso. revert Hin. apply Hno.
    rewrite !filter_app, opens_prologue, opens_taken. reflexivity.
  - rewrite run_taken in Hin by assumption.
    destruct Hin as [Hin|Hin]; [injection Hin as <- <-; repeat split; exact Hwf|].
    exfalso. revert Hin. apply Hno.
    rewrite !filter_app, opens_prologue, opens_taken, opens_epilogue.
    reflexivity.
Qed.

(** C8: in every run whose [open] succeeds, the last thing the process
    does before it exits -- with either status, after a refused payload
    byte or a refused CR or none -- is to close the handle it opened, and
    it closes it once. *)
Theorem handle_closed_on_every_path (v : variant) (argv : list string)
        (E : env) (path : string) (fd : Z) :
  In (Open path fd) (trace v argv E) ->
  0 <= fd ->
  exists before,
    trace v argv E = before ++ [Close fd]
    /\ filter is_close before = [].
Proof.
  intros Hin Hfd.
  destruct (open_event_of_run v argv E path fd Hin) as [Hwf [-> ->]].
  unfold trace.
  destruct (takes_or_refuses E (List.length (payload argv)) 0)
    as [Hall|[i [Hi Hrej]]].
  - rewrite run_taken by assumption. cbn [snd].
    destruct (epilogue_ends_closed v argv (open_ret E (device argv)) E
                (List.length (payload argv))) as [Htail Hcl].
    cbv zeta in Htail, Hcl.
    set (d := open_ret E (device argv)) in *.
    set (tail := snd (epilogue v argv d E (List.length (payload argv)))) in *.
    exists (Open (device argv) d :: prologue v d E
            ++ taken (pace v) d E 0 (payload argv) ++ removelast tail).
    split.
    + rewrite Htail at 1. cbn. rewrite <- !app_assoc. reflexivity.
    + cbn [filter is_close].
      rewrite !filter_app, closes_prologue, closes_taken, Hcl. reflexivity.
  - rewrite (run_refused v argv E i) by assumption. cbn [snd].
    set (d := open_ret E (device argv)).
    exists (Open (device argv) d :: prologue v d E
            ++ taken (pace v) d E 0 (firstn i (payload argv))
            ++ [Tiocsti d (nth i (payload argv) CR) (tiocsti_ret E i);
                Perror "Failed to send character"]).
    split.
    + cbn. rewrite <- !app_assoc. reflexivity.
    + cbn [filter is_close].
      rewrite !filter_app, closes_prologue, closes_taken. reflexivity.
Qed.

Lemma handle_closed_on_every_path_witness :
  exists before,
    trace Raw cmd_raw (refusing 2) = before ++ [Close 3]
    /\ filter is_close before = [].
Proof.
  apply (handle_closed_on_every_path Raw cmd_raw (refusing 2)
           "/dev/pts/1"%string 3).
  - left. reflexivity.
  - lia.
Defined.

(** ** The attribute query of send-keys-raw *)

Lemma injections_without_query tr :
  injections (without_query tr) = injections tr.
Proof.
  unfold without_query. induction tr as [|e tr IH]; [reflexivity|].
  destruct e; cbn; rewrite ?IH; reflexivity.
Qed.

Lemma diagnostics_without_query tr :
  diagnostics (without_query tr) = diagnostics tr.
Proof.
  unfold without_query, diagnostics.
  induction tr as [|e tr IH]; [reflexivity|].
  destruct e; cbn; rewrite ?IH; reflexivity.
Qed.

Section SameAnswers.

Variables E1 E2 : env.
Hypothesis same_open : forall p, open_ret E1 p = open_ret E2 p.
Hypothesis same_tiocsti : forall n, tiocsti_ret E1 n = tiocsti_ret E2 n.

Lemma takes_same n len : takes E1 n len -> takes E2 n len.
Proof. intros H i Hi. rewrite <- same_tiocsti. apply H, Hi. Qed.

Lemma refuses_same n i : refuses_at E1 n i -> refuses_at E2 n i.
Proof.
  intros [H1 H2]. split; [apply takes_same, H1|].
  rewrite <- same_tiocsti. exact H2.
Qed.

Lemma taken_same p fd : forall text n,
  taken p fd E1 n text = taken p fd E2 n text.
Proof.
  induction text as [|c text IH]; intros n; [reflexivity|].
  cbn. rewrite same_tiocsti, IH. reflexivity.
Qed.

(** Two runs of send-keys-raw against kernels that answer [open] and
    every injection call alike differ in the query event at most. *)
Lemma raw_runs_agree argv :
  exit_status Raw argv E1 = exit_status Raw argv E2
  /\ without_query (trace Raw argv E1) = without_query (trace Raw argv E2).
Proof.
  unfold exit_status, trace.
  destruct (run_cases Raw argv E1)
    as [Hwf|Hwf Hfd|i Hwf Hfd Hi Hrej|Hwf Hfd Hall].
  - rewrite !run_ill_formed by exact Hwf. split; reflexivity.
  - rewrite !run_open_failed by (rewrite <- ?same_open; assumption).
    rewrite same_open. split; reflexivity.
  - rewrite (run_refused Raw argv E1 i) by assumption.
    rewrite (run_refused Raw argv E2 i)
      by (rewrite <- ?same_open; try apply refuses_same; assumption).
    cbn [fst snd prologue pace]. split; [reflexivity|].
    rewrite <- same_open, <- same_tiocsti.
    rewrite <- (taken_same [] (open_ret E1 (device argv))).
    reflexivity.
  - rewrite (run_taken Raw argv E1) by assumption.
    rewrite (run_taken Raw argv E2)
      by (rewrite <- ?same_open; try apply takes_same; assumption).
    cbn [prologue pace epilogue].
    rewrite <- same_open, <- same_tiocsti.
    rewrite <- (taken_same [] (open_ret E1 (device argv))).
    split; [reflexivity|].
    destruct (_ <? 0); reflexivity.
Qed.

End SameAnswers.

(** C9: in send-keys-raw the attribute query decides nothing.  Two runs on
    the same arguments whose kernels answer [open] and every injection call
    alike make the same injection calls, print the same diagnostics and
    exit with the same status, whatever the query returns or stores -- the
    whole traces differ in the query event at most -- and a run that exits
    0 has injected the payload followed by one CR. *)
Theorem raw_query_has_no_influence (argv : list string) (E1 E2 : env) :
  (forall p, open_ret E1 p = open_ret E2 p) ->
  (forall n, tiocsti_ret E1 n = tiocsti_ret E2 n) ->
  injections (trace Raw argv E1) = injections (trace Raw argv E2)
  /\ exit_status Raw argv E1 = exit_status Raw argv E2
  /\ diagnostics (trace Raw argv E1) = diagnostics (trace Raw argv E2)
  /\ without_query (trace Raw argv E1) = without_query (trace Raw argv E2)
  /\ (exit_status Raw argv E1 = 0 ->
      injected (trace Raw argv E1) = payload argv ++ [CR]).
Proof.
  intros Ho Ht.
  destruct (raw_runs_agree E1 E2 Ho Ht argv) as [Hst Htr].
  split; [|split; [|split; [|split]]].
  - rewrite <- (injections_without_query (trace Raw argv E1)), Htr.
    apply injections_without_query.
  - exact Hst.
  - rewrite <- (diagnostics_without_query (trace Raw argv E1)), Htr.
    apply diagnostics_without_query.
  - exact Htr.
  - intros Hexit. apply exit_zero_cases in Hexit.
    destruct Hexit as [Hwf [Hfd Hd]].
    assert (Hall : takes E1 0 (List.length (payload argv))).
    { apply (payload_accepted_takes Raw). repeat split; try assumption.
      apply (delivered_app_l _ _ _ Hd). }
    unfold injected. rewrite injections_run_taken by assumption.
    rewrite map_app, map_fst_replies. f_equal. branches.
Qed.

Lemma raw_query_has_no_influence_witness :
  injections (trace Raw cmd_raw willing)
  = injections (trace Raw cmd_raw query_fails_stale_canon)
  /\ exit_status Raw cmd_raw willing
     = exit_status Raw cmd_raw query_fails_stale_canon
  /\ diagnostics (trace Raw cmd_raw willing)
     = diagnostics (trace Raw cmd_raw query_fails_stale_canon)
  /\ without_query (trace Raw cmd_raw willing)
     = without_query (trace Raw cmd_raw query_fails_stale_canon)
  /\ (exit_status Raw cmd_raw willing = 0 ->
      injected (trace Raw cmd_raw willing) = payload cmd_raw ++ [CR]).
Proof.
  apply (raw_query_has_no_influence cmd_raw willing query_fails_stale_canon).
  - intros p. reflexivity.
  - intros n. reflexivity.
Defined.

(** ** No token, no framing *)

Lemma epilogue_no_token argv fd E n :
  List.length argv = 3%nat ->
  epilogue NoEnter argv fd E n = (0, [Close fd]).
Proof. intros H. unfold epilogue, argc. rewrite H. reflexivity. Qed.

(** C10: send-keys-no-enter called with a device and a payload and no
    token hands the kernel bytes of the payload only -- some prefix of it,
    whatever the kernel answers, and never a CR or LF of framing -- and
    when every payload byte is accepted it has injected exactly the payload
    and exits 0. *)
Theorem no_token_sends_payload_only (argv : list string) (E : env) :
  List.length argv = 3%nat ->
  (exists k, injected (trace NoEnter argv E) = firstn k (payload argv))
  /\ (payload_accepted NoEnter argv E ->
      injected (trace NoEnter argv E) = payload argv
      /\ exit_status NoEnter argv E = 0).
Proof.
  intros Hlen. split.
  - destruct (run_cases NoEnter argv E)
      as [Hwf|Hwf Hfd|i Hwf Hfd Hi Hrej|Hwf Hfd Hall].
    + exfalso. apply Hwf. left. exact Hlen.
    + exists 0%nat. unfold trace. rewrite run_open_failed by assumption.
      reflexivity.
    + exists (S i). unfold injected.
      rewrite (injections_refused NoEnter argv E i) by assumption.
      rewrite map_app, map_fst_replies. cbn.
      symmetry. apply firstn_snoc_nth. exact Hi.
    + exists (List.length (payload argv)). unfold injected.
      rewrite injections_run_taken by assumption.
      rewrite epilogue_no_token by exact Hlen. cbn.
      rewrite app_nil_r, map_fst_replies, firstn_all. reflexivity.
  - intros Hacc.
    assert (Hall := payload_accepted_takes NoEnter argv E Hacc).
    destruct Hacc as [Hwf [Hfd _]]. split.
    + unfold injected. rewrite injections_run_taken by assumption.
      rewrite epilogue_no_token by exact Hlen. cbn.
      rewrite app_nil_r. apply map_fst_replies.
    + apply (exit_status_taken NoEnter); assumption.
Qed.

Lemma no_token_sends_payload_only_witness :
  (exists k,
     injected (trace NoEnter cmd_no_token willing)
     = firstn k (payload cmd_no_token))
  /\ injected (trace NoEnter cmd_no_token willing) = payload cmd_no_token
  /\ exit_status NoEnter cmd_no_token willing = 0.
Proof.
  destruct (no_token_sends_payload_only cmd_no_token willing eq_refl)
    as [Hprefix Hall].
  split; [exact Hprefix|]. apply Hall.
  split; [left; reflexivity|]. split; [cbn; lia|reflexivity].
Defined.


(** ** Beyond the claims: starts that fail *)

(** A command line of the wrong shape costs one usage line naming
    [argv[0]] and status 1; no system call is made, the device is not even
    opened. *)
Theorem misuse_prints_usage_only (v : variant) (argv : list string) (E : env) :
  ~ well_formed v argv ->
  trace v argv E = [Fprintf_stderr (usage_of v) (ArgStr (arg argv 0))]
  /\ exit_status v argv E = 1
  /\ injections (trace v argv E) = []
  /\ filter is_open (trace v argv E) = [].
Proof.
  intros H. unfold trace, exit_status. rewrite run_ill_formed by exact H.
  repeat split.
Qed.

Lemma misuse_prints_usage_only_witness :
  trace NoEnter cmd_short willing
  = [Fprintf_stderr (usage_of NoEnter) (ArgStr (arg cmd_short 0))]
  /\ exit_status NoEnter cmd_short willing = 1
  /\ injections (trace NoEnter cmd_short willing) = []
  /\ filter is_open (trace NoEnter cmd_short willing) = [].
Proof.
  apply (misuse_prints_usage_only NoEnter cmd_short willing).
  intros [H|H]; discriminate H.
Defined.

(** When the device does not open, the run is the [open], its diagnostic
    and status 1: nothing is injected, nothing is queried, and no [close]
    is issued on the invalid descriptor. *)
Theorem open_failure_stops_the_run (v : variant) (argv : list string) (E : env) :
  well_formed v argv ->
  open_ret E (device argv) < 0 ->
  trace v argv E = [Open (device argv) (open_ret E (device argv));
                    Perror "Failed to open terminal"]
  /\ exit_status v argv E = 1
  /\ injections (trace v argv E) = []
  /\ filter is_close (trace v argv E) = [].
Proof.
  intros Hwf Hfd. unfold trace, exit_status.
  rewrite run_open_failed by assumption. repeat split.
Qed.

Lemma open_failure_stops_the_run_witness :
  trace Pty cmd_pty no_device
  = [Open (device cmd_pty) (open_ret no_device (device cmd_pty));
     Perror "Failed to open terminal"]
  /\ exit_status Pty cmd_pty no_device = 1
  /\ injections (trace Pty cmd_pty no_device) = []
  /\ filter is_close (trace Pty cmd_pty no_device) = [].
Proof.
  apply (open_failure_stops_the_run Pty cmd_pty no_device).
  - reflexivity.
  - cbn. lia.
Defined.

(** The exit status is 0 or 1, whatever the arguments and the kernel. *)
Theorem exit_status_is_0_or_1 (v : variant) (argv : list string) (E : env) :
  exit_status v argv E = 0 \/ exit_status v argv E = 1.
Proof.
  destruct (run_cases v argv E) as [Hwf|Hwf Hfd|i Hwf Hfd Hi Hrej|Hwf Hfd Hall].
  - right. apply exit_status_ill_formed. exact Hwf.
  - right. apply exit_status_open_failed; assumption.
  - right. apply (exit_status_refused v argv E i); assumption.
  - rewrite exit_status_taken by assumption.
    destruct v; auto. destruct (_ <? 0); auto.
Qed.

(** ** Beyond the claims: the diagnostic stream *)

Lemma diagnostics_app tr1 tr2 :
  diagnostics (tr1 ++ tr2) = diagnostics tr1 ++ diagnostics tr2.
Proof. apply filter_app. Qed.

Lemma diagnostics_taken v fd E : forall text n,
  diagnostics (taken (pace v) fd E n text) = [].
Proof.
  induction text as [|a text IH]; intros n; [reflexivity|].
  cbn. rewrite diagnostics_app, IH. destruct v; reflexivity.
Qed.

Lemma diagnostics_prologue v fd E :
  diagnostics (prologue v fd E) =
  match v with
  | Pty => if tcgetattr_ret E <? 0 then [Perror "tcgetattr failed"] else []
  | _ => []
  end.
Proof. destruct v; cbn; try reflexivity. destruct (_ <? 0); reflexivity. Qed.

Lemma diagnostics_run_taken v argv E :
  well_formed v argv ->
  0 <= open_ret E (device argv) ->
  takes E 0 (List.length (payload argv)) ->
  diagnostics (trace v argv E) =
  diagnostics (prologue v (open_ret E (device argv)) E)
  ++ diagnostics (snd (epilogue v argv (open_ret E (device argv)) E
                         (List.length (payload argv)))).
Proof.
  intros Hwf Hfd Hall. unfold trace. rewrite run_taken by assumption.
  cbn [snd]. change (Open ?p ?r :: ?l) with ([Open p r] ++ l).
  rewrite !diagnostics_app, diagnostics_taken. reflexivity.
Qed.

Lemma nonempty_of_in {A} (x : A) l : In x l -> l <> [].
Proof. intros H ->. exact H. Qed.

(** No failure is silent: a run that exits with a nonzero status has
    written at least one diagnostic. *)
Theorem failure_is_never_silent (v : variant) (argv : list string) (E : env) :
  exit_status v argv E <> 0 ->
  diagnostics (trace v argv E) <> [].
Proof.
  intros Hexit. unfold exit_status, trace in *.
  destruct (run_cases v argv E) as [Hwf|Hwf Hfd|i Hwf Hfd Hi Hrej|Hwf Hfd Hall].
  - rewrite run_ill_formed by exact Hwf. discriminate.
  - rewrite run_open_failed by assumption. discriminate.
  - rewrite (run_refused v argv E i) by assumption. cbn [snd].
    apply (nonempty_of_in (Perror "Failed to send character")).
    apply filter_In. split; [|reflexivity].
    right. apply in_or_app. right. apply in_or_app. right.
    right. left. reflexivity.
  - fold (trace v argv E) (exit_status v argv E) in *.
    rewrite exit_status_taken in Hexit by assumption.
    rewrite diagnostics_run_taken by assumption.
    destruct v; try contradiction.
    cbn in *. destruct (_ <? 0); [discriminate|contradiction].
Qed.

Lemma failure_is_never_silent_witness :
  diagnostics (trace Raw cmd_raw (refusing 2)) <> [].
Proof.
  apply (failure_is_never_silent Raw cmd_raw (refusing 2)).
  discriminate.
Defined.

(** A run in which nothing fails -- the device opens, the query succeeds
    where one is made, the kernel takes the payload and the two calls that
    may follow it -- writes nothing to the diagnostic stream and exits 0. *)
Theorem clean_run_is_silent (v : variant) (argv : list string) (E : env) :
  well_formed v argv ->
  0 <= open_ret E (device argv) ->
  (v = Pty -> 0 <= tcgetattr_ret E) ->
  takes E 0 (List.length (payload argv) + 2) ->
  diagnostics (trace v argv E) = [] /\ exit_status v argv E = 0.
Proof.
  intros Hwf Hfd Hq Hall.
  assert (Hpay : takes E 0 (List.length (payload argv)))
    by (intros i Hi; apply Hall; lia).
  assert (H1 := Hall (List.length (payload argv)) ltac:(lia)).
  assert (H2 := Hall (S (List.length (payload argv))) ltac:(lia)).
  cbn in H1, H2. apply Z.ltb_ge in H1, H2.
  split.
  - rewrite diagnostics_run_taken, diagnostics_prologue by assumption.
    destruct v; try (specialize (Hq eq_refl); apply Z.ltb_ge in Hq);
      unfold epilogue, soft; rewrite ?Hq, ?H1, ?H2; branches.
  - rewrite exit_status_taken by assumption.
    destruct v; try reflexivity. rewrite H1. reflexivity.
Qed.

Lemma clean_run_is_silent_witness :
  diagnostics (trace Pty cmd_pty willing) = []
  /\ exit_status Pty cmd_pty willing = 0.
Proof.
  apply (clean_run_is_silent Pty cmd_pty willing).
  - reflexivity.
  - cbn. lia.
  - intros _. cbn. lia.
  - intros i _. cbn. lia.
Defined.

(** In send-keys the two framing bytes are attempted independently: after
    an accepted payload the CR and then the LF are injected whatever the
    kernel answered to the CR, each refusal is reported by its own
    diagnostic and by nothing else, and the status is 0 all the same. *)
Theorem soft_framing_reports_each_refusal (argv : list string) (E : env) :
  payload_accepted Plain argv E ->
  injections (trace Plain argv E) =
  replies E 0 (payload argv)
  ++ [(CR, tiocsti_ret E (List.length (payload argv)));
      (LF, tiocsti_ret E (S (List.length (payload argv))))]
  /\ diagnostics (trace Plain argv E) =
     refusal_note (tiocsti_ret E (List.length (payload argv))) "Failed to send CR"
     ++ refusal_note (tiocsti_ret E (S (List.length (payload argv))))
          "Failed to send LF"
  /\ exit_status Plain argv E = 0.
Proof.
  intros Hacc.
  assert (Hall := payload_accepted_takes Plain argv E Hacc).
  destruct Hacc as [Hwf [Hfd _]].
  split; [|split].
  - rewrite injections_run_taken by assumption. f_equal. branches.
  - rewrite diagnostics_run_taken by assumption. unfold refusal_note. branches.
  - apply (exit_status_taken Plain); assumption.
Qed.

Lemma soft_framing_reports_each_refusal_witness :
  injections (trace Plain cmd_plain (refusing 2)) =
  replies (refusing 2) 0 (payload cmd_plain)
  ++ [(CR, tiocsti_ret (refusing 2) (List.length (payload cmd_plain)));
      (LF, tiocsti_ret (refusing 2) (S (List.length (payload cmd_plain))))]
  /\ diagnostics (trace Plain cmd_plain (refusing 2)) =
     refusal_note (tiocsti_ret (refusing 2) (List.length (payload cmd_plain)))
       "Failed to send CR"
     ++ refusal_note (tiocsti_ret (refusing 2) (S (List.length (payload cmd_plain))))
          "Failed to send LF"
  /\ exit_status Plain cmd_plain (refusing 2) = 0.
Proof.
  apply (soft_framing_reports_each_refusal cmd_plain (refusing 2)).
  split; [reflexivity|]. split; [cbn; lia|reflexivity].
Defined.

(** ** Beyond the claims: what reaches the kernel *)

Lemma injected_epilogue_prefix v argv fd E n :
  exists j, injected (snd (epilogue v argv fd E n)) = firstn j (full_framing v).
Proof.
  destruct v; unfold injected; branches;
    solve [exists 0%nat; reflexivity | exists 1%nat; reflexivity
          | exists 2%nat; reflexivity].
Qed.

(** Whatever the kernel answers, the bytes a tool hands to the injection
    facility are an initial stretch of the payload followed by its framing
    bytes: nothing else is ever injected, nothing twice, nothing out of
    order, and send-keys-raw never injects an LF of its own. *)
Theorem injected_is_a_prefix (v : variant) (argv : list string) (E : env) :
  exists k,
    injected (trace v argv E) = firstn k (payload argv ++ full_framing v).
Proof.
  destruct (run_cases v argv E) as [Hwf|Hwf Hfd|i Hwf Hfd Hi Hrej|Hwf Hfd Hall].
  - exists 0%nat. unfold trace. rewrite run_ill_formed by exact Hwf.
    reflexivity.
  - exists 0%nat. unfold trace. rewrite run_open_failed by assumption.
    reflexivity.
  - exists (S i). unfold injected.
    rewrite (injections_refused v argv E i) by assumption.
    rewrite map_app, map_fst_replies. cbn [map fst].
    rewrite firstn_app. replace (S i - List.length (payload argv))%nat with 0%nat by lia.
    cbn [firstn]. rewrite app_nil_r. symmetry. apply firstn_snoc_nth. exact Hi.
  - destruct (injected_epilogue_prefix v argv (open_ret E (device argv)) E
                (List.length (payload argv))) as [j Hj].
    exists (List.length (payload argv) + j)%nat. unfold injected in *.
    rewrite injections_run_taken by assumption.
    rewrite map_app, map_fst_replies, Hj. symmetry. apply firstn_app_2.
Qed.

Lemma descriptor_prologue v fd E e fd' :
  In e (prologue v fd E) -> descriptor e = Some fd' -> fd' = fd.
Proof.
  destruct v; cbn; try contradiction.
  - intros [<-|[]] H. cbn in H. congruence.
  - destruct (_ <? 0); intros Hin H;
      repeat (destruct Hin as [<-|Hin]; [cbn in H; congruence|]);
      contradiction.
Qed.

Lemma descriptor_taken v fd E e fd' : forall text n,
  In e (taken (pace v) fd E n text) -> descriptor e = Some fd' -> fd' = fd.
Proof.
  induction text as [|c text IH]; intros n Hin H; [contradiction|].
  cbn in Hin. destruct Hin as [<-|Hin]; [cbn in H; congruence|].
  apply in_app_or in Hin. destruct Hin as [Hin|Hin].
  - destruct v; cbn in Hin; try contradiction.
    destruct Hin as [<-|[]]. discriminate H.
  - apply (IH _ Hin H).
Qed.

Lemma descriptor_epilogue v argv fd E n e fd' :
  In e (snd (epilogue v argv fd E n)) -> descriptor e = Some fd' -> fd' = fd.
Proof.
  destruct v; branches; intros Hin H;
    repeat (destruct Hin as [<-|Hin]; [cbn in H; congruence|]);
    contradiction.
Qed.

(** Every call a tool makes on a descriptor -- query, injection, close --
    is made on the descriptor its own [open] returned, and only when that
    [open] succeeded. *)
Theorem only_opened_descriptor_used (v : variant) (argv : list string)
        (E : env) (e : event) (fd : Z) :
  In e (trace v argv E) ->
  descriptor e = Some fd ->
  fd = open_ret E (device argv) /\ 0 <= fd.
Proof.
  unfold trace. intros Hin Hd.
  destruct (run_cases v argv E) as [Hwf|Hwf Hfd|i Hwf Hfd Hi Hrej|Hwf Hfd Hall].
  - rewrite run_ill_formed in Hin by exact Hwf.
    destruct Hin as [<-|[]]. discriminate Hd.
  - rewrite run_open_failed in Hin by assumption.
    destruct Hin as [<-|[<-|[]]]; discriminate Hd.
  - rewrite (run_refused v argv E i) in Hin by assumption. cbn [snd] in Hin.
    assert (fd = open_ret E (device argv)); [|subst; split; [reflexivity|assumption]].
    destruct Hin as [<-|Hin]; [discriminate Hd|].
    apply in_app_or in Hin. destruct Hin as [Hin|Hin];
      [apply (descriptor_prologue _ _ _ _ _ Hin Hd)|].
    apply in_app_or in Hin. destruct Hin as [Hin|Hin];
      [apply (descriptor_taken _ _ _ _ _ _ _ Hin Hd)|].
    repeat (destruct Hin as [<-|Hin]; [cbn in Hd; congruence|]).
    contradiction.
  - rewrite run_taken in Hin by assumption. cbn [snd] in Hin.
    assert (fd = open_ret E (device argv)); [|subst; split; [reflexivity|assumption]].
    destruct Hin as [<-|Hin]; [discriminate Hd|].
    apply in_app_or in Hin. destruct Hin as [Hin|Hin];
      [apply (descriptor_prologue _ _ _ _ _ Hin Hd)|].
    apply in_app_or in Hin. destruct Hin as [Hin|Hin];
      [apply (descriptor_taken _ _ _ _ _ _ _ Hin Hd)|].
    apply (descriptor_epilogue _ _ _ _ _ _ _ Hin Hd).
Qed.

Lemma only_opened_descriptor_used_witness :
  3 = open_ret willing (device cmd_pty) /\ 0 <= 3.
Proof.
  apply (only_opened_descriptor_used Pty cmd_pty willing (Tiocsti 3 "i" 0) 3).
  - cbn. right. right. right. right. left. reflexivity.
  - reflexivity.
Defined.

(** In every run that gets past the usage check the first thing done is
    the one [open] of [argv[1]]; no other path is ever opened and the
    device is not opened twice. *)
Theorem device_opened_first_and_once (v : variant) (argv : list string)
        (E : env) :
  well_formed v argv ->
  exists rest,
    trace v argv E = Open (arg argv 1) (open_ret E (arg argv 1)) :: rest
    /\ filter is_open rest = [].
Proof.
  intros Hwf. unfold trace. fold (device argv).
  destruct (Z.ltb_spec (open_ret E (device argv)) 0) as [Hfd|Hfd].
  - rewrite run_open_failed by assumption. eexists. split; reflexivity.
  - destruct (takes_or_refuses E (List.length (payload argv)) 0)
      as [Hall|[i [Hi Hrej]]].
    + rewrite run_taken by assumption. eexists. split; [reflexivity|].
      rewrite !filter_app, opens_prologue, opens_taken, opens_epilogue.
      reflexivity.
    + rewrite (run_refused v argv E i) by assumption.
      eexists. split; [reflexivity|].
      rewrite !filter_app, opens_prologue, opens_taken. reflexivity.
Qed.

Lemma device_opened_first_and_once_witness :
  exists rest,
    trace Raw cmd_raw willing
    = Open (arg cmd_raw 1) (open_ret willing (arg cmd_raw 1)) :: rest
    /\ filter is_open rest = [].
Proof.
  apply (device_opened_first_and_once Raw cmd_raw willing). reflexivity.
Defined.

(** ** Beyond the claims: the tools compared *)

(** send-keys-no-enter called with the token [enter] is send-keys: on the
    same device and payload the two make the same calls, print the same
    diagnostics and exit alike, whatever the kernel answers. *)
Theorem enter_token_is_send_keys (a0 b0 a1 a2 : string) (E : env) :
  run NoEnter [a0; a1; a2; "enter"%string] E = run Plain [b0; a1; a2] E.
Proof.
  set (long := [a0; a1; a2; "enter"%string]). set (short := [b0; a1; a2]).
  assert (Hl : well_formed NoEnter long) by (right; reflexivity).
  assert (Hs : well_formed Plain short) by reflexivity.
  change (device short) with (device long) in *.
  destruct (run_cases Plain short E)
    as [Hwf|_ Hfd|i _ Hfd Hi Hrej|_ Hfd Hall].
  - contradiction.
  - rewrite (run_open_failed NoEnter long), (run_open_failed Plain short)
      by assumption.
    reflexivity.
  - rewrite (run_refused NoEnter long E i), (run_refused Plain short E i)
      by assumption.
    reflexivity.
  - rewrite (run_taken NoEnter long), (run_taken Plain short) by assumption.
    change (payload long) with (payload short).
    change (device long) with (device short). branches.
Qed.

(** In send-keys-raw a refused CR is fatal: after an accepted payload the
    run reports it, closes the device and exits 1, and the CR is the last
    byte handed to the kernel. *)
Theorem raw_refused_cr_is_fatal (argv : list string) (E : env) :
  payload_accepted Raw argv E ->
  tiocsti_ret E (List.length (payload argv)) < 0 ->
  exit_status Raw argv E = 1
  /\ injected (trace Raw argv E) = payload argv ++ [CR]
  /\ accepted (trace Raw argv E) = payload argv
  /\ diagnostics (trace Raw argv E) = [Perror "Failed to send Enter key"].
Proof.
  intros Hacc Hcr.
  assert (Hall := payload_accepted_takes Raw argv E Hacc).
  destruct Hacc as [Hwf [Hfd _]]. apply Z.ltb_lt in Hcr.
  split; [|split; [|split]].
  - rewrite exit_status_taken by assumption. rewrite Hcr. reflexivity.
  - unfold injected. rewrite injections_run_taken by assumption.
    rewrite map_app, map_fst_replies. f_equal. branches.
  - unfold accepted. rewrite injections_run_taken by assumption.
    rewrite filter_app, filter_replies_taken by assumption.
    rewrite map_app, map_fst_replies. cbn [epilogue]. rewrite Hcr.
    cbn [snd injections filter]. apply Z.ltb_lt, Z.leb_gt in Hcr.
    cbn [snd]. rewrite Hcr. apply app_nil_r.
  - rewrite diagnostics_run_taken by assumption. cbn [epilogue prologue].
    rewrite Hcr. reflexivity.
Qed.

Lemma raw_refused_cr_is_fatal_witness :
  exit_status Raw cmd_raw (refusing 2) = 1
  /\ injected (trace Raw cmd_raw (refusing 2)) = payload cmd_raw ++ [CR]
  /\ accepted (trace Raw cmd_raw (refusing 2)) = payload cmd_raw
  /\ diagnostics (trace Raw cmd_raw (refusing 2))
     = [Perror "Failed to send Enter key"].
Proof.
  apply (raw_refused_cr_is_fatal cmd_raw (refusing 2)).
  - split; [reflexivity|]. split; [cbn; lia|reflexivity].
  - cbn. lia.
Defined.

(** ** Beyond the claims: sleeping *)

Lemma slept_app tr1 tr2 : slept (tr1 ++ tr2) = slept tr1 + slept tr2.
Proof.
  induction tr1 as [|e tr1 IH]; [reflexivity|].
  destruct e; cbn; rewrite ?IH; lia.
Qed.

Lemma slept_prologue v fd E : slept (prologue v fd E) = 0.
Proof. destruct v; cbn; try reflexivity. destruct (_ <? 0); reflexivity. Qed.

Lemma slept_taken fd E : forall text n,
  slept (taken [Usleep 1000] fd E n text) = 1000 * Z.of_nat (List.length text).
Proof.
  induction text as [|c text IH]; intros n; [reflexivity|].
  cbn [taken app slept List.length]. rewrite IH. lia.
Qed.

Lemma length_accepted_taken E : forall text n,
  takes E n (List.length text) ->
  List.length (filter (fun p => 0 <=? snd p) (replies E n text))
  = List.length text.
Proof.
  intros text n H. rewrite filter_replies_taken by exact H.
  apply length_replies.
Qed.

(** The time send-keys-pty spends asleep: 1 ms for each payload byte and
    10 ms before the LF decision on a run that exits 0, and 1 ms for each
    byte the kernel took on a run that does not. *)
Theorem pty_time_asleep (argv : list string) (E : env) :
  slept (trace Pty argv E) =
  if exit_status Pty argv E =? 0
  then 1000 * Z.of_nat (List.length (payload argv)) + 10000
  else 1000 * Z.of_nat (List.length (accepted (trace Pty argv E))).
Proof.
  destruct (run_cases Pty argv E) as [Hwf|Hwf Hfd|i Hwf Hfd Hi Hrej|Hwf Hfd Hall].
  - rewrite exit_status_ill_formed by exact Hwf. unfold trace.
    rewrite run_ill_formed by exact Hwf. reflexivity.
  - rewrite exit_status_open_failed by assumption. unfold trace.
    rewrite run_open_failed by assumption. reflexivity.
  - rewrite (exit_status_refused Pty argv E i) by assumption.
    unfold accepted. rewrite (injections_refused Pty argv E i) by assumption.
    unfold trace. rewrite (run_refused Pty argv E i) by assumption.
    cbn [snd slept pace]. rewrite !slept_app, slept_prologue, slept_taken.
    rewrite filter_app, length_map, length_app.
    rewrite length_accepted_taken by (apply takes_firstn; [lia|apply Hrej]).
    destruct Hrej as [_ Hrej]. apply Z.leb_gt in Hrej. cbn in Hrej.
    cbn [filter snd slept]. rewrite Hrej. cbn [List.length Z.eqb]. lia.
  - rewrite exit_status_taken by assumption.
    unfold trace. rewrite run_taken by assumption.
    cbn [snd slept pace]. rewrite !slept_app, slept_prologue, slept_taken.
    change (0 =? 0) with true. cbv iota.
    assert (Hepi : slept (snd (epilogue Pty argv (open_ret E (device argv)) E
                                 (List.length (payload argv)))) = 10000)
      by branches.
    rewrite Hepi. lia.
Qed.

Lemma sleeps_prologue v fd E : filter is_sleep (prologue v fd E) = [].
Proof. destruct v; cbn; try reflexivity. destruct (_ <? 0); reflexivity. Qed.

Lemma sleeps_taken fd E : forall text n,
  filter is_sleep (taken [] fd E n text) = [].
Proof.
  induction text as [|a text IH]; intros n; [reflexivity|].
  cbn. apply IH.
Qed.

(** send-keys, send-keys-raw and send-keys-no-enter never sleep. *)
Theorem only_pty_sleeps (v : variant) (argv : list string) (E : env) :
  v <> Pty ->
  filter is_sleep (trace v argv E) = [].
Proof.
  intros Hv. unfold trace.
  destruct (run_cases v argv E) as [Hwf|Hwf Hfd|i Hwf Hfd Hi Hrej|Hwf Hfd Hall].
  - rewrite run_ill_formed by exact Hwf. reflexivity.
  - rewrite run_open_failed by assumption. reflexivity.
  - rewrite (run_refused v argv E i) by assumption. cbn [snd filter is_sleep].
    rewrite !filter_app, sleeps_prologue.
    destruct v; try contradiction; cbn [pace]; rewrite sleeps_taken;
      reflexivity.
  - rewrite run_taken by assumption. cbn [snd filter is_sleep].
    rewrite !filter_app, sleeps_prologue.
    destruct v; try contradiction; cbn [pace]; rewrite sleeps_taken;
      branches.
Qed.

Lemma only_pty_sleeps_witness :
  filter is_sleep (trace Plain cmd_plain willing) = [].
Proof.
  apply (only_pty_sleeps Plain cmd_plain willing). discriminate.
Defined.

(** ** Beyond the claims: the query of send-keys-pty *)

(** send-keys-pty queries the attributes once, on the descriptor just
    opened and before the first byte; the failure diagnostic is written
    exactly when the query fails, and it is written at that point. *)
Theorem pty_queries_once_before_payload (argv : list string) (E : env) :
  well_formed Pty argv ->
  0 <= open_ret E (device argv) ->
  exists rest,
    trace Pty argv E =
    Open (device argv) (open_ret E (device argv))
    :: Tcgetattr (open_ret E (device argv)) (tcgetattr_ret E)
    :: (if tcgetattr_ret E <? 0 then [Perror "tcgetattr failed"] else [])
    ++ rest
    /\ filter is_query rest = []
    /\ ~ In (Perror "tcgetattr failed") rest.
Proof.
  intros Hwf Hfd. unfold trace.
  assert (Hq : forall fd text n,
            filter is_query (taken [Usleep 1000] fd E n text) = []).
  { intros fd text. induction text as [|a text IH]; intros n; [reflexivity|].
    cbn. apply IH. }
  assert (Hp : forall fd text n,
            ~ In (Perror "tcgetattr failed") (taken [Usleep 1000] fd E n text)).
  { intros fd text. induction text as [|a text IH]; intros n; [intros []|].
    cbn. intros [H|[H|H]]; try discriminate H. apply (IH _ H). }
  destruct (takes_or_refuses E (List.length (payload argv)) 0)
    as [Hall|[i [Hi Hrej]]].
  - rewrite run_taken by assumption. cbn [snd prologue pace].
    exists (taken [Usleep 1000] (open_ret E (device argv)) E 0 (payload argv)
            ++ snd (epilogue Pty argv (open_ret E (device argv)) E
                      (List.length (payload argv)))).
    split; [reflexivity|]. split.
    + rewrite filter_app, Hq. branches.
    + intros Hin. apply in_app_or in Hin. destruct Hin as [Hin|Hin];
        [apply (Hp _ _ _ Hin)|].
      revert Hin. branches; intros Hin;
        repeat (destruct Hin as [Hin|Hin]; [discriminate Hin|]); contradiction.
  - rewrite (run_refused Pty argv E i) by assumption. cbn [snd prologue pace].
    exists (taken [Usleep 1000] (open_ret E (device argv)) E 0
              (firstn i (payload argv))
            ++ [Tiocsti (open_ret E (device argv)) (nth i (payload argv) CR)
                  (tiocsti_ret E i);
                Perror "Failed to send character";
                Close (open_ret E (device argv))]).
    split; [reflexivity|]. split.
    + rewrite filter_app, Hq. reflexivity.
    + intros Hin. apply in_app_or in Hin. destruct Hin as [Hin|Hin];
        [apply (Hp _ _ _ Hin)|].
      repeat (destruct Hin as [Hin|Hin]; [discriminate Hin|]). contradiction.
Qed.

Lemma pty_queries_once_before_payload_witness :
  exists rest,
    trace Pty cmd_pty query_fails_stale_canon =
    Open (device cmd_pty) (open_ret query_fails_stale_canon (device cmd_pty))
    :: Tcgetattr (open_ret query_fails_stale_canon (device cmd_pty))
         (tcgetattr_ret query_fails_stale_canon)
    :: (if tcgetattr_ret query_fails_stale_canon <? 0
        then [Perror "tcgetattr failed"] else [])
    ++ rest
    /\ filter is_query rest = []
    /\ ~ In (Perror "tcgetattr failed") rest.
Proof.
  apply (pty_queries_once_before_payload cmd_pty query_fails_stale_canon).
  - reflexivity.
  - cbn. lia.
Defined.
